(** * Price-feeder oracle: resolver, deviation filter and vote scheduler

    A shallow embedding of the price aggregation and voting pipeline of the
    price feeder ([oracle/convert.go], [oracle/filter.go], [oracle/oracle.go],
    [oracle/provider/zero.go]) together with the properties checked on it.

    Conventions of the embedding.
    - Go maps are finite maps ([gmap]); a map that is only read is
      indifferent to Go's iteration order, and the loops that build a map
      from another one are written as folds over it.
    - [sdk.Dec] is the 18-digit fixed-point decimal of the cosmos-sdk: a big
      integer holding the value scaled by [10^18].  Decimals that take part
      in arithmetic are never nil (Go would panic on a nil one); a decimal
      that the code tests with [IsNil] is an [option].  The sdk's panic on a
      result beyond its bit length is not modelled.
    - Logging and telemetry calls have no influence on results and are left
      out, except the counter of missed votes, which is an event of a tick. *)

From Stdlib Require Import ZArith String List Lia Sorting.Sorted Sorting.Permutation.
From stdpp Require Import gmap strings list fin_maps.

#[local] Open Scope string_scope.
#[local] Open Scope list_scope.
#[local] Open Scope Z_scope.

(** ** Decimals ([sdk.Dec]) *)

Module Dec.

(** The underlying integer: the value times [10^18]. *)
Definition t := Z.

Definition precisionReuse : Z := 10 ^ 18.
Definition fivePrecision : Z := precisionReuse / 2.

Definition ZeroDec : t := 0.
(** [sdk.NewDec(i)]: the integer [i] as a decimal. *)
Definition NewDec (i : Z) : t := i * precisionReuse.

Definition Add (a b : t) : t := a + b.
Definition Sub (a b : t) : t := a - b.

(** Removes 18 digits with banker's rounding; the sign is taken off first
    and put back at the end. *)
Definition chopPrecisionAndRound (d : Z) : Z :=
  let a := Z.abs d in
  let quo := Z.quot a precisionReuse in
  let rem := Z.rem a precisionReuse in
  let chopped :=
    if rem =? 0 then quo
    else if rem <? fivePrecision then quo
    else if fivePrecision <? rem then quo + 1
    else if Z.even quo then quo else quo + 1 in
  if d <? 0 then - chopped else chopped.

Definition Mul (a b : t) : t := chopPrecisionAndRound (a * b).

(** [Quo]: the divisor is not zero where the code divides. *)
Definition Quo (a b : t) : t :=
  chopPrecisionAndRound (Z.quot (a * precisionReuse * precisionReuse) b).

(** [QuoInt64] truncates. *)
Definition QuoInt64 (a : t) (i : Z) : t := Z.quot a i.

(** [ApproxSqrt] approximates the square root by Newton's iteration; the
    model takes the root of a non-negative decimal rounded down to the last
    digit. *)
Definition ApproxSqrt (a : t) : t := Z.sqrt (a * precisionReuse).

Definition GTE (a b : t) : bool := b <=? a.
Definition LTE (a b : t) : bool := a <=? b.
Definition IsZero (a : t) : bool := a =? 0.
Definition Equal (a b : t) : bool := a =? b.

End Dec.

Abbreviation Dec := Dec.t.

(** ** Data model ([oracle/types], [oracle/provider]) *)

(** [provider.Name] is a string. *)
Abbreviation Name := string (only parsing).

(** Go's [error]: the message. *)
Abbreviation error := string (only parsing).

Record CurrencyPair := { Base : string; Quote : string }.

#[global] Instance CurrencyPair_eq_dec : EqDecision CurrencyPair.
Proof. solve_decision. Defined.

(** Modelled from the spec: [CurrencyPair.String] is declared in
    [oracle/types], which is not among the sources modelled here; the data
    model gives [Symbol = Base ∥ Quote]. *)
Definition symbolOf (cp : CurrencyPair) : string := String.append (Base cp) (Quote cp).

(** A ticker: last price, volume, and the instant of the observation in
    nanoseconds. *)
Record TickerPrice := { Price : Dec; Volume : Dec; Time : Z }.

#[global] Instance TickerPrice_eq_dec : EqDecision TickerPrice.
Proof. solve_decision. Defined.

(** ** Deviation filter ([oracle/filter.go]) *)

Definition defaultDeviationThreshold : Dec := Dec.NewDec 1.

Definition sumDec (l : list Dec) : Dec := foldl Dec.Add Dec.ZeroDec l.

(** Modelled from the spec: [StandardDeviation] lives in [oracle/util.go],
    which is not among the sources modelled here.  The spec asks for the
    arithmetic mean and the population standard deviation of the prices, and
    calls the deviation indeterminate with fewer than three samples; the
    resolver itself relies on that bound (it tests [len(rates) >= 3] after a
    failed filter). *)
Definition StandardDeviation (prices : list Dec) : (Dec * Dec) + error :=
  if (length prices <? 3)%nat
  then inr "not enough values to calculate deviation"
  else
    let numPrices := Z.of_nat (length prices) in
    let mean := Dec.QuoInt64 (sumDec prices) numPrices in
    let varianceSum :=
      foldl (fun acc price =>
               let deviation := Dec.Sub price mean in
               Dec.Add acc (Dec.Mul deviation deviation))
            Dec.ZeroDec prices in
    let variance := Dec.QuoInt64 varianceSum numPrices in
    inl (Dec.ApproxSqrt variance, mean).

Definition isBetween (p mean margin : Dec) : bool :=
  Dec.GTE p (Dec.Sub mean margin) && Dec.LTE p (Dec.Add mean margin).

(** The prices of a ticker map, in the order the map is walked. *)
Definition pricesOf (tickerPrices : gmap Name TickerPrice) : list Dec :=
  (fun kv => Price kv.2) <$> map_to_list tickerPrices.

(** [FilterTickerDeviations]: the threshold is [None] for a nil decimal (what
    a Go map gives for a base without a configured threshold).  The result
    is Go's pair: the map, and the error if any. *)
Definition FilterTickerDeviations
    (symbol : string) (tickerPrices : gmap Name TickerPrice)
    (deviationThreshold : option Dec)
    : gmap Name TickerPrice * option error :=
  let deviationThreshold := default defaultDeviationThreshold deviationThreshold in
  let prices := pricesOf tickerPrices in
  match StandardDeviation prices with
  | inr err => (tickerPrices, Some err)
  | inl (deviation, mean) =>
      (filter (fun kv : Name * TickerPrice =>
                 isBetween (Price kv.2) mean (Dec.Mul deviation deviationThreshold) = true)
              tickerPrices,
       None)
  end.

(** ** Volume-weighted average *)

(** Modelled from the spec: [ComputeVWAP] lives in [oracle/util.go], which
    is not among the sources modelled here.  The spec gives
    [Σ(priceᵢ·volumeᵢ) / Σ(volumeᵢ)] over the tickers, with the arithmetic
    mean when all volumes are zero (volumes are non-negative, so that is when
    their sum is zero); nothing can be averaged over no ticker, which is the
    error the callers test for. *)
Definition ComputeVWAP (tickers : list TickerPrice) : Dec + error :=
  match tickers with
  | [] => inr "no tickers supplied"
  | _ =>
      let volumeSum := foldl (fun acc tp => Dec.Add acc (Volume tp)) Dec.ZeroDec tickers in
      if Dec.Equal volumeSum Dec.ZeroDec
      then
        let priceSum := foldl (fun acc tp => Dec.Add acc (Price tp)) Dec.ZeroDec tickers in
        inl (Dec.Quo priceSum (Dec.NewDec (Z.of_nat (length tickers))))
      else
        let weightedPrice :=
          foldl (fun acc tp => Dec.Add acc (Dec.Mul (Price tp) (Volume tp)))
                Dec.ZeroDec tickers in
        inl (Dec.Quo weightedPrice volumeSum)
  end.

(** ** Cross-rate resolver ([oracle/convert.go]) *)

Definition vwapRate (rates : gmap Name TickerPrice) : Dec + error :=
  ComputeVWAP (snd <$> map_to_list rates).

(** [addRates]: a provider that already has a rate keeps it. *)
Definition addRates (symbol : string)
    (rates : gmap Name TickerPrice) (tickers : gmap Name TickerPrice)
    : gmap Name TickerPrice :=
  map_fold (fun providerName tickerPrice rates =>
              match rates !! providerName with
              | Some _ => rates
              | None => <[providerName := tickerPrice]> rates
              end)
           rates tickers.

(** Groups the ticker prices by symbol. *)
Definition groupBySymbol (providerPrices : gmap Name (gmap string TickerPrice))
    : gmap string (gmap Name TickerPrice) :=
  map_fold (fun providerName tickerPrices bySymbol =>
     map_fold (fun symbol tickerPrice bySymbol =>
                 <[symbol := <[providerName := tickerPrice]> (default ∅ (bySymbol !! symbol))]>
                   bySymbol)
              bySymbol tickerPrices)
    ∅ providerPrices.

(** The configured pairs, one per symbol. *)
Definition addPair (acc : gset string * list CurrencyPair) (currencyPair : CurrencyPair)
    : gset string * list CurrencyPair :=
  let symbol := symbolOf currencyPair in
  if decide (symbol ∈ acc.1) then acc
  else ({[symbol]} ∪ acc.1, acc.2 ++ [currencyPair]).

Definition collectPairs (providerPairs : gmap Name (list CurrencyPair)) : list CurrencyPair :=
  (map_fold (fun _ currencyPairs acc => foldl addPair acc currencyPairs)
            (∅, []) providerPairs).2.

(** [sort.Slice] with [pairs[i].String() < pairs[j].String()]: Go compares
    strings byte by byte. *)
Definition pairLess (a b : CurrencyPair) : bool := String.ltb (symbolOf a) (symbolOf b).

Fixpoint insertPair (p : CurrencyPair) (l : list CurrencyPair) : list CurrencyPair :=
  match l with
  | [] => [p]
  | q :: l' => if pairLess q p then q :: insertPair p l' else p :: l
  end.

Definition sortPairs (pairs : list CurrencyPair) : list CurrencyPair :=
  foldr insertPair [] pairs.

(** The reordering loop: a pair whose base has a USD rate is put in front of
    what was collected so far, any other pair at the end. *)
Definition reorderPairs (usdRates : gmap string (gmap Name TickerPrice))
    (pairs : list CurrencyPair) : list CurrencyPair :=
  foldl (fun reordered pair =>
           match usdRates !! Base pair with
           | Some _ => [pair] ++ reordered
           | None => reordered ++ [pair]
           end)
        [] pairs.

(** What the body of the conversion loop does with one pair. *)
Inductive PairOutcome :=
| Unresolved
| Failed (err : error)
| NewRates (newRates : gmap Name TickerPrice).

Definition convertPair
    (providerPricesBySymbol : gmap string (gmap Name TickerPrice))
    (deviationThresholds : gmap string Dec) (providerMinOverrides : gmap string Z)
    (usdRates : gmap string (gmap Name TickerPrice)) (currencyPair : CurrencyPair)
    : PairOutcome :=
  let symbol := symbolOf currencyPair in
  let quote := Quote currencyPair in
  let maxDeviation := deviationThresholds !! quote in
  let tickerPrices := default ∅ (providerPricesBySymbol !! symbol) in
  if String.eqb quote "USD" then NewRates tickerPrices
  else
    let minProviders := default 3 (providerMinOverrides !! quote) in
    match usdRates !! quote with
    | None => Unresolved
    | Some rates =>
        if Z.of_nat (size rates) <? minProviders then Unresolved
        else
          let '(filtered, err) := FilterTickerDeviations symbol rates maxDeviation in
          if bool_decide (is_Some err) && (3 <=? Z.of_nat (size rates)) then Unresolved
          else
            match vwapRate filtered with
            | inr err => Failed err
            | inl rate =>
                NewRates ((fun tickerPrice =>
                             {| Price := Dec.Mul (Price tickerPrice) rate;
                                Volume := Volume tickerPrice;
                                Time := Time tickerPrice |}) <$> tickerPrices)
            end
    end.

Fixpoint convertPairs
    (providerPricesBySymbol : gmap string (gmap Name TickerPrice))
    (deviationThresholds : gmap string Dec) (providerMinOverrides : gmap string Z)
    (pairs : list CurrencyPair)
    (usdRates : gmap string (gmap Name TickerPrice)) (unresolved : list CurrencyPair)
    : (gmap string (gmap Name TickerPrice) * list CurrencyPair) + error :=
  match pairs with
  | [] => inl (usdRates, unresolved)
  | currencyPair :: pairs' =>
      let continue := convertPairs providerPricesBySymbol deviationThresholds
                                   providerMinOverrides pairs' in
      match convertPair providerPricesBySymbol deviationThresholds providerMinOverrides
                        usdRates currencyPair with
      | Unresolved => continue usdRates (unresolved ++ [currencyPair])
      | Failed err => inr err
      | NewRates newRates =>
          if (0 <? size newRates)%nat
          then
            let base := Base currencyPair in
            continue (<[base := addRates (symbolOf currencyPair)
                                         (default ∅ (usdRates !! base)) newRates]> usdRates)
                     unresolved
          else continue usdRates unresolved
      end
  end.

Definition maxConversions : nat := 6.

(** The conversion rounds; [rounds] is how many are left. *)
Fixpoint convertRounds
    (providerPricesBySymbol : gmap string (gmap Name TickerPrice))
    (deviationThresholds : gmap string Dec) (providerMinOverrides : gmap string Z)
    (rounds : nat) (pairs : list CurrencyPair)
    (usdRates : gmap string (gmap Name TickerPrice))
    : gmap string (gmap Name TickerPrice) + error :=
  match rounds with
  | O => inl usdRates
  | S rounds' =>
      let pairs := reorderPairs usdRates (sortPairs pairs) in
      match convertPairs providerPricesBySymbol deviationThresholds providerMinOverrides
                         pairs usdRates [] with
      | inr err => inr err
      | inl (usdRates, unresolved) =>
          if (length unresolved =? 0)%nat || (length unresolved =? length pairs)%nat
          then inl usdRates
          else convertRounds providerPricesBySymbol deviationThresholds
                             providerMinOverrides rounds' unresolved usdRates
      end
  end.

(** The body of the last loop: the rate of one denom, or [None] when the
    loop moves on without writing one. *)
Definition finalRate
    (deviationThresholds : gmap string Dec) (providerMinOverrides : gmap string Z)
    (denom : string) (tickers : gmap Name TickerPrice) : option Dec :=
  let threshold := deviationThresholds !! denom in
  let '(filtered, err) := FilterTickerDeviations denom tickers threshold in
  let rated :=
    match vwapRate filtered with
    | inr _ => None
    | inl rate => if Dec.IsZero rate then None else Some rate
    end in
  match err with
  | Some _ =>
      match providerMinOverrides !! denom with
      | None => None
      | Some minimum =>
          if Z.of_nat (size filtered) <? minimum then None else rated
      end
  | None => rated
  end.

Definition finalRates
    (deviationThresholds : gmap string Dec) (providerMinOverrides : gmap string Z)
    (usdRates : gmap string (gmap Name TickerPrice)) : gmap string Dec :=
  map_imap (finalRate deviationThresholds providerMinOverrides) usdRates.

(** [convertTickersToUSD] returns Go's pair: the map (nil is [None]) and the
    error. *)
Definition convertTickersToUSD
    (providerPrices : gmap Name (gmap string TickerPrice))
    (providerPairs : gmap Name (list CurrencyPair))
    (deviationThresholds : gmap string Dec) (providerMinOverrides : gmap string Z)
    : option (gmap string Dec) * option error :=
  if (size providerPrices =? 0)%nat then (None, None)
  else
    match convertRounds (groupBySymbol providerPrices) deviationThresholds
                        providerMinOverrides maxConversions
                        (collectPairs providerPairs) ∅ with
    | inr err => (None, Some err)
    | inl usdRates =>
        (Some (finalRates deviationThresholds providerMinOverrides usdRates), None)
    end.

Definition GetComputedPrices
    (providerPrices : gmap Name (gmap string TickerPrice))
    (providerPairs : gmap Name (list CurrencyPair))
    (deviations : gmap string Dec) (providerMinOverrides : gmap string Z)
    : option (gmap string Dec) * option error :=
  match convertTickersToUSD providerPrices providerPairs deviations providerMinOverrides with
  | (_, Some err) => (None, Some err)
  | (rates, None) => (rates, None)
  end.

(** ** Collecting prices ([Oracle.SetPrices]) *)

(** A value of [types.TickerPrice] as a provider hands it over: either the
    zero value [TickerPrice{}] (nil decimals, zero time) or a ticker with
    decimals.  [ticker == types.TickerPrice{}] holds of the first only. *)
Inductive ProviderTicker :=
| ZeroTicker
| Ticker (ticker : TickerPrice).

(** The block under the mutex: the pairs with a ticker that is not the zero
    value are kept, and their tickers are written into [providerPrices],
    except those of derivative symbols, which go to the price history. *)
Definition hasTicker (prices : gmap string ProviderTicker) (pair : CurrencyPair) : bool :=
  match prices !! symbolOf pair with
  | Some (Ticker _) => true
  | _ => false
  end.

Definition mergeTicker (derivativeSymbols : gset string) (providerName : Name)
    (prices : gmap string ProviderTicker)
    (providerPrices : gmap Name (gmap string TickerPrice)) (pair : CurrencyPair)
    : gmap Name (gmap string TickerPrice) :=
  match prices !! symbolOf pair with
  | Some (Ticker ticker) =>
      if decide (symbolOf pair ∈ derivativeSymbols) then providerPrices
      else <[providerName := <[symbolOf pair := ticker]>
                               (default ∅ (providerPrices !! providerName))]> providerPrices
  | _ => providerPrices
  end.

Definition mergeProviderPrices (derivativeSymbols : gset string) (providerName : Name)
    (currencyPairs : list CurrencyPair) (prices : gmap string ProviderTicker)
    (providerPrices : gmap Name (gmap string TickerPrice))
    : gmap Name (gmap string TickerPrice) :=
  let filteredPairs := List.filter (hasTicker prices) currencyPairs in
  foldl (mergeTicker derivativeSymbols providerName prices) providerPrices filteredPairs.

(** The derivative hook: every synthetic ticker is written under its source
    name. *)
Definition mergeDerivativePrices
    (providerPrices : gmap Name (gmap string TickerPrice))
    (derived : string * gmap string TickerPrice)
    : gmap Name (gmap string TickerPrice) :=
  let '(symbol, tickerPrices) := derived in
  map_fold (fun nameString tickerPrice providerPrices =>
              <[nameString := <[symbol := tickerPrice]>
                                (default ∅ (providerPrices !! nameString))]> providerPrices)
           providerPrices tickerPrices.

(** ** Vote scheduler ([Oracle.tick]) *)

(** [time.Time]: the instant in nanoseconds since the Unix epoch, and whether
    the value carries a monotonic clock reading; [==] on two times compares
    both.  One clock stands for the wall and the monotonic clock. *)
Record GoTime := { instant : Z; monotonic : bool }.

#[global] Instance GoTime_eq_dec : EqDecision GoTime.
Proof. solve_decision. Defined.

(** [time.Unix(0, 0)]. *)
Definition unixEpoch : GoTime := {| instant := 0; monotonic := false |}.
(** [time.Time{}], the first instant of year 1. *)
Definition zeroTime : GoTime := {| instant := -62135596800 * 10 ^ 9; monotonic := false |}.
(** [time.Now()] when the clock reads [t]. *)
Definition timeNow (t : Z) : GoTime := {| instant := t; monotonic := true |}.
Definition timeAdd (t : GoTime) (d : Z) : GoTime :=
  {| instant := instant t + d; monotonic := monotonic t |}.
Definition timeAfter (t u : GoTime) : bool := instant u <? instant t.
Definition timeBefore (t u : GoTime) : bool := instant t <? instant u.
(** [t.Unix()]: whole seconds. *)
Definition timeUnix (t : GoTime) : Z := instant t / 10 ^ 9.

Record PreviousPrevote := {
  ExchangeRates : string;
  Salt : string;
  SubmitBlockHeight : Z
}.

(** The fields of [Oracle] (and of its [OracleClient]) that a tick reads or
    writes. *)
Record Oracle := {
  providerPairs : gmap Name (list CurrencyPair);
  previousPrevote : option PreviousPrevote;
  previousVotePeriod : GoTime;
  VotePeriod : Z;
  OperatorAccount : string;
  deviations : gmap string Dec;
  providerMinOverrides : gmap string Z;
  derivativeSymbols : gset string;
  prices : option (gmap string Dec)
}.

Definition setPrices (o : Oracle) (computedPrices : option (gmap string Dec)) : Oracle :=
  {| providerPairs := providerPairs o;
     previousPrevote := previousPrevote o;
     previousVotePeriod := previousVotePeriod o;
     VotePeriod := VotePeriod o;
     OperatorAccount := OperatorAccount o;
     deviations := deviations o;
     providerMinOverrides := providerMinOverrides o;
     derivativeSymbols := derivativeSymbols o;
     prices := computedPrices |}.

Definition setPrevote (o : Oracle) (votePeriod : GoTime) (prevote : option PreviousPrevote)
    : Oracle :=
  {| providerPairs := providerPairs o;
     previousPrevote := prevote;
     previousVotePeriod := votePeriod;
     VotePeriod := VotePeriod o;
     OperatorAccount := OperatorAccount o;
     deviations := deviations o;
     providerMinOverrides := providerMinOverrides o;
     derivativeSymbols := derivativeSymbols o;
     prices := prices o |}.

(** What a tick meets outside the oracle: the clock, the providers, the
    derivative engine, the random source and the topic. *)
Record TickEnv := {
  (** the reading of [time.Now()] *)
  now : Z;
  (** the error of [NewProvider], when a provider cannot be built *)
  newProviderError : option error;
  (** what each provider that answered in time returned *)
  responses : gmap Name (gmap string ProviderTicker);
  (** the derivative prices, per symbol, in the order they are written *)
  derivativePrices : list (string * gmap string TickerPrice);
  (** the result of [GenerateSalt(32)] *)
  generatedSalt : string + error;
  (** whether submitting to the topic fails; [PutTx] panics then *)
  putTxFails : bool
}.

(** The aggregated provider prices of a tick. *)
Definition collectProviderPrices (o : Oracle) (env : TickEnv)
    : gmap Name (gmap string TickerPrice) :=
  let fetched :=
    map_fold (fun providerName prices providerPrices =>
                mergeProviderPrices (derivativeSymbols o) providerName
                  (default [] (providerPairs o !! providerName)) prices providerPrices)
             ∅ (responses env) in
  foldl mergeDerivativePrices fetched (derivativePrices env).

Definition SetPrices (o : Oracle) (env : TickEnv) : Oracle * option error :=
  match newProviderError env with
  | Some err => (o, Some err)
  | None =>
      match GetComputedPrices (collectProviderPrices o env) (providerPairs o)
                              (deviations o) (providerMinOverrides o) with
      | (_, Some err) => (o, Some err)
      | (computedPrices, None) => (setPrices o computedPrices, None)
      end
  end.

(** The two messages a tick submits. *)
Inductive Msg :=
| MsgAggregateExchangeRatePrevote (Hash Feeder : string)
| MsgAggregateExchangeRateVote (Salt ExchangeRates Feeder : string).

(** What a tick does, in order. *)
Inductive Event :=
| CollectPrices
| CountMissedVote
| PutTx (msg : Msg)
| HealthchecksPing.

#[global] Instance Msg_eq_dec : EqDecision Msg.
Proof. solve_decision. Defined.
#[global] Instance Event_eq_dec : EqDecision Event.
Proof. solve_decision. Defined.

Inductive Outcome :=
| Returned (err : option error)
| Panicked.

Section Scheduler.

(** [tmhash.NewTruncated]: the truncated SHA-256 digest of a string. *)
Variable tmhashSumTruncated : string -> string.

(** [GenerateExchangeRatesString(o.GetPrices())]: the canonical string of
    the prices, built by the cosmos-sdk; [None] when the sdk panics on a
    coin it refuses. *)
Variable exchangeRatesString : option (gmap string Dec) -> option string.

Definition GetAggregateVoteHash (salt exchangeRatesStr voter : string) : string :=
  tmhashSumTruncated
    (String.append salt
       (String.append ":" (String.append exchangeRatesStr (String.append ":" voter)))).

Definition tick (o : Oracle) (env : TickEnv) : Oracle * list Event * Outcome :=
  let blockHeight := timeNow (now env) in
  let votingWindowEnd := timeAdd (previousVotePeriod o) (VotePeriod o) in
  let nextVotingWindowEnd := timeAdd votingWindowEnd (VotePeriod o) in
  if bool_decide (previousVotePeriod o ≠ unixEpoch) && timeAfter votingWindowEnd blockHeight
  then (o, [], Returned None)
  else
    match SetPrices o env with
    | (o, Some err) => (o, [CollectPrices], Returned (Some err))
    | (o, None) =>
        if bool_decide (previousVotePeriod o ≠ unixEpoch)
           && timeBefore nextVotingWindowEnd blockHeight
        then (setPrevote o unixEpoch None, [CollectPrices; CountMissedVote], Returned None)
        else
          match generatedSalt env with
          | inr err => (o, [CollectPrices], Returned (Some err))
          | inl salt =>
              match exchangeRatesString (prices o) with
              | None => (o, [CollectPrices], Panicked)
              | Some exchangeRatesStr =>
                  let hash :=
                    GetAggregateVoteHash salt exchangeRatesStr (OperatorAccount o) in
                  let preVoteMsg :=
                    MsgAggregateExchangeRatePrevote hash (OperatorAccount o) in
                  match previousPrevote o with
                  | None =>
                      if putTxFails env then (o, [CollectPrices], Panicked)
                      else
                        (setPrevote o blockHeight
                           (Some {| Salt := salt;
                                    ExchangeRates := exchangeRatesStr;
                                    SubmitBlockHeight := timeUnix blockHeight |}),
                         [CollectPrices; PutTx preVoteMsg], Returned None)
                  | Some prevote =>
                      let voteMsg :=
                        MsgAggregateExchangeRateVote (Salt prevote) (ExchangeRates prevote)
                                                     (OperatorAccount o) in
                      if putTxFails env then (o, [CollectPrices], Panicked)
                      else
                        (setPrevote o unixEpoch None,
                         [CollectPrices; PutTx voteMsg; HealthchecksPing], Returned None)
                  end
              end
          end
    end.

(** The oracle loop of [Start]: ticks one after the other; a panic ends
    the process.  The result is the oracle at the end and the events of
    every tick that ran. *)
Fixpoint runTicks (o : Oracle) (envs : list TickEnv) : Oracle * list (list Event) :=
  match envs with
  | [] => (o, [])
  | env :: envs' =>
      match tick o env with
      | (o', events, Returned _) =>
          let '(o'', rest) := runTicks o' envs' in (o'', events :: rest)
      | (o', events, Panicked) => (o', [events])
      end
  end.

(** Every vote in a sequence of messages comes right after the prevote
    that carries the digest of its salt, its rates and its feeder. *)
Definition votesBound (msgs : list Msg) : Prop :=
  forall before salt rates feeder after,
    msgs = before ++ MsgAggregateExchangeRateVote salt rates feeder :: after ->
    exists before',
      before = before'
               ++ [MsgAggregateExchangeRatePrevote
                     (GetAggregateVoteHash salt rates feeder) feeder].

(** What the scheduler keeps true of the messages submitted so far: they
    are bound, and a pending prevote is the one submitted last. *)
Definition pendingBound (o : Oracle) (msgs : list Msg) : Prop :=
  votesBound msgs
  /\ forall prevote,
      previousPrevote o = Some prevote ->
      exists before,
        msgs = before
               ++ [MsgAggregateExchangeRatePrevote
                     (GetAggregateVoteHash (Salt prevote) (ExchangeRates prevote)
                                           (OperatorAccount o))
                     (OperatorAccount o)].

End Scheduler.

(** The messages submitted by a tick, and over a run. *)
Definition published (events : list Event) : list Msg :=
  omap (fun e => match e with PutTx msg => Some msg | _ => None end) events.

(** A pair of the configuration ([config.CurrencyPair]) with the providers
    that quote it. *)
Module config.
Record CurrencyPair := { Base : string; Quote : string; Providers : list Name }.
End config.

(** [New]: the pairs are grouped by provider; there is no prevote, the
    previous vote period is the zero time, and there are no prices yet. *)
Definition New (currencyPairs : list config.CurrencyPair) (votePeriod : Z)
    (operator : string) (thresholds : gmap string Dec) (minOverrides : gmap string Z)
    (derivativeDenoms : gset string) : Oracle :=
  let providerPairs :=
    foldl (fun providerPairs pair =>
             foldl (fun providerPairs (provider : Name) =>
                      <[provider := default [] (providerPairs !! provider)
                                    ++ [{| Base := config.Base pair;
                                           Quote := config.Quote pair |}]]> providerPairs)
                   providerPairs (config.Providers pair))
          ∅ currencyPairs in
  {| providerPairs := providerPairs;
     previousPrevote := None;
     previousVotePeriod := zeroTime;
     VotePeriod := votePeriod;
     OperatorAccount := operator;
     deviations := thresholds;
     providerMinOverrides := minOverrides;
     derivativeSymbols := derivativeDenoms;
     prices := None |}.

(** ** The zero provider ([oracle/provider/zero.go]) *)

(** [ZeroProvider.Poll]: every pair of the provider gets a ticker with price
    0 and volume 1, stamped with the time of the poll. *)
Definition Poll (pairs : gmap string CurrencyPair) (tickers : gmap string TickerPrice)
    (timestamp : Z) : gmap string TickerPrice :=
  map_fold (fun symbol _ tickers =>
              <[symbol := {| Price := 0; Volume := Dec.NewDec 1; Time := timestamp |}]>
                tickers)
           tickers pairs.

(** ** Notions used in the statements *)

(** The ticker of a provider for a symbol in the aggregated prices. *)
Definition tickerOf (providerPrices : gmap Name (gmap string TickerPrice))
    (providerName : Name) (symbol : string) : option TickerPrice :=
  (providerPrices !! providerName) ≫= (fun tickerPrices => tickerPrices !! symbol).

(** The tickers the resolver finds for a symbol. *)
Definition quotesOf (providerPrices : gmap Name (gmap string TickerPrice)) (symbol : string)
    : gmap Name TickerPrice :=
  default ∅ (groupBySymbol providerPrices !! symbol).

(** The aggregated prices extended by one ticker of a provider. *)
Definition addTicker (providerPrices : gmap Name (gmap string TickerPrice))
    (providerName : Name) (symbol : string) (ticker : TickerPrice)
    : gmap Name (gmap string TickerPrice) :=
  <[providerName := <[symbol := ticker]> (default ∅ (providerPrices !! providerName))]>
    providerPrices.

(** The price of a base in what the resolver returns. *)
Definition rateOf (result : option (gmap string Dec) * option error) (base : string)
    : option Dec :=
  result.1 ≫= (fun rates => rates !! base).

(** The USD symbol of a base. *)
Definition usdSymbol (base : string) : string := symbolOf {| Base := base; Quote := "USD" |}.

(** The rate the last loop writes for a denom exists and is not zero. *)
Definition usableRate (rates : gmap Name TickerPrice) : Prop :=
  exists rate, vwapRate rates = inl rate /\ rate <> 0.

(** The order on pairs that [sort.Slice] establishes. *)
Definition symbolLe (a b : CurrencyPair) : Prop :=
  String.leb (symbolOf a) (symbolOf b) = true.

(** The table of USD rates when every pair is quoted in USD: the bases that
    were met and have quotes carry exactly the quotes of their USD symbol. *)
Definition usdTableOf (providerPricesBySymbol : gmap string (gmap Name TickerPrice))
    (bases : list string) (usdRates : gmap string (gmap Name TickerPrice)) : Prop :=
  forall base,
    usdRates !! base
    = if bool_decide (base ∈ bases
                      /\ default ∅ (providerPricesBySymbol !! usdSymbol base) ≠ ∅)
      then Some (default ∅ (providerPricesBySymbol !! usdSymbol base))
      else None.

(** The states of the scheduler: fresh from [New], idle, or with a prevote
    submitted when the clock read [start]. *)
Definition Idle (o : Oracle) : Prop :=
  previousPrevote o = None /\ previousVotePeriod o = unixEpoch.

Definition PrevoteSubmitted (o : Oracle) (prevote : PreviousPrevote) (start : Z) : Prop :=
  previousPrevote o = Some prevote /\ previousVotePeriod o = timeNow start.

Definition schedulerState (o : Oracle) : Prop :=
  (previousPrevote o = None /\ previousVotePeriod o = zeroTime)
  \/ Idle o
  \/ exists prevote start, PrevoteSubmitted o prevote start.

(** The messages submitted over a run. *)
Definition publishedBy (run : list (list Event)) : list Msg :=
  concat (published <$> run).

(** ** Scenarios

    Concrete tickers, configurations and runs on which the definitions are
    evaluated. *)

Definition pairOf (base quote : string) : CurrencyPair := {| Base := base; Quote := quote |}.
Definition pairXUSD : CurrencyPair := pairOf "X" "USD".

(** A ticker with a whole price, volume 1. *)
Definition quoteAt (price : Z) : TickerPrice :=
  {| Price := Dec.NewDec price; Volume := Dec.NewDec 1; Time := 0 |}.

(** The ticker of the zero provider: price 0, volume 1. *)
Definition zeroQuote (timestamp : Z) : TickerPrice :=
  {| Price := 0; Volume := Dec.NewDec 1; Time := timestamp |}.

(** Four providers quote 1, 2, 3 and 10. *)
Definition spreadQuotes : gmap Name TickerPrice :=
  list_to_map [("a", quoteAt 1); ("b", quoteAt 2); ("c", quoteAt 3); ("d", quoteAt 10)].

(** One provider, the zero provider, quotes X/USD; X needs one provider. *)
Definition zeroOnlyPrices : gmap Name (gmap string TickerPrice) :=
  {[ "zero" := {[ "XUSD" := zeroQuote 0 ]} ]}.
Definition zeroOnlyPairs : gmap Name (list CurrencyPair) := {[ "zero" := [pairXUSD] ]}.
Definition oneProviderForX : gmap string Z := {[ "X" := 1 ]}.

(** ATOM and BTC are quoted in USD by one provider and in USDT by another;
    nobody quotes USDT. *)
Definition tetherPairs : list CurrencyPair :=
  [pairOf "BTC" "USDT"; pairOf "ATOM" "USD"; pairOf "BTC" "USD"; pairOf "ATOM" "USDT"].
Definition tetherPrices : gmap Name (gmap string TickerPrice) :=
  list_to_map
    [("kraken", list_to_map [("ATOMUSD", quoteAt 10); ("BTCUSD", quoteAt 100)]);
     ("binance", list_to_map [("ATOMUSDT", quoteAt 10); ("BTCUSDT", quoteAt 100)])].

(** Three providers quote X/USD at 10, a fourth one may quote it too; the
    threshold of X is 0.5. *)
Definition agreedPrices : gmap Name (gmap string TickerPrice) :=
  list_to_map [("a", {[ "XUSD" := quoteAt 10 ]}); ("b", {[ "XUSD" := quoteAt 10 ]});
               ("c", {[ "XUSD" := quoteAt 10 ]})].
Definition fourProviders : gmap Name (list CurrencyPair) :=
  list_to_map [("a", [pairXUSD]); ("b", [pairXUSD]); ("c", [pairXUSD]); ("d", [pairXUSD])].
Definition halfSigmaForX : gmap string Dec := {[ "X" := 5 * 10 ^ 17 ]}.

(** Stand-ins for the two library functions of the scheduler, for running
    ticks: the scheduler never looks inside a digest or a rates string. *)
Definition plainDigest (source : string) : string := source.
Definition plainRates (prices : option (gmap string Dec)) : option string :=
  Some (if prices is Some _ then "rates" else "").

(** Four providers quote USDT/USD, a fifth quotes ATOM/USDT; the threshold of
    USDT is 0.5 and the vote period five seconds. *)
Definition tetherOracle : Oracle :=
  New [ {| config.Base := "USDT"; config.Quote := "USD";
           config.Providers := ["a"; "b"; "c"; "d"] |};
        {| config.Base := "ATOM"; config.Quote := "USDT"; config.Providers := ["e"] |} ]
      (5 * 10 ^ 9) "0.0.5700506" {[ "USDT" := 5 * 10 ^ 17 ]} ∅ ∅.

(** A tick at [seconds], all providers answering, the fourth one quoting
    USDT at [fourth]. *)
Definition tetherTick (seconds fourth : Z) : TickEnv :=
  {| now := seconds * 10 ^ 9;
     newProviderError := None;
     responses :=
       list_to_map [("a", {[ "USDTUSD" := Ticker (quoteAt 1) ]});
                    ("b", {[ "USDTUSD" := Ticker (quoteAt 1) ]});
                    ("c", {[ "USDTUSD" := Ticker (quoteAt 1) ]});
                    ("d", {[ "USDTUSD" := Ticker (quoteAt fourth) ]});
                    ("e", {[ "ATOMUSDT" := Ticker (quoteAt 10) ]})];
     derivativePrices := [];
     generatedSalt := inl "5a17";
     putTxFails := false |}.

(** The oracle after its first two ticks, at seconds 1 and 2: the second one
    submitted a prevote. *)
Definition submittedOracle : Oracle :=
  (runTicks plainDigest plainRates tetherOracle [tetherTick 1 1; tetherTick 2 1]).1.

(** The prevote that [submittedOracle] holds. *)
Definition submittedPrevote : PreviousPrevote :=
  {| ExchangeRates := "rates"; Salt := "5a17"; SubmitBlockHeight := 2 |}.

(** Three providers quote USDT/USD at 1 and BTC/USD at 100, another one
    quotes ATOM/USDT; the threshold of USDT is 0.5. *)
Definition convertedPrices : gmap Name (gmap string TickerPrice) :=
  list_to_map
    [("a", list_to_map [("USDTUSD", quoteAt 1); ("BTCUSD", quoteAt 100)]);
     ("b", list_to_map [("USDTUSD", quoteAt 1); ("BTCUSD", quoteAt 100)]);
     ("c", list_to_map [("USDTUSD", quoteAt 1); ("BTCUSD", quoteAt 100)]);
     ("e", {[ "ATOMUSDT" := quoteAt 10 ]})].
Definition convertedPairs : gmap Name (list CurrencyPair) :=
  list_to_map
    [("a", [pairOf "USDT" "USD"; pairOf "BTC" "USD"]);
     ("b", [pairOf "USDT" "USD"; pairOf "BTC" "USD"]);
     ("c", [pairOf "USDT" "USD"; pairOf "BTC" "USD"]);
     ("d", [pairOf "USDT" "USD"]);
     ("e", [pairOf "ATOM" "USDT"])].
Definition halfSigmaForUSDT : gmap string Dec := {[ "USDT" := 5 * 10 ^ 17 ]}.

(** * Properties *)

(** ** The deviation filter *)

Lemma isBetween_spec (p mean margin : Dec) :
  isBetween p mean margin = true <-> mean - margin <= p <= mean + margin.
Proof.
  unfold isBetween, Dec.GTE, Dec.LTE, Dec.Sub, Dec.Add.
  rewrite andb_true_iff, !Z.leb_le. tauto.
Qed.

Lemma length_pricesOf (tickerPrices : gmap Name TickerPrice) :
  length (pricesOf tickerPrices) = size tickerPrices.
Proof. unfold pricesOf. by rewrite length_fmap, length_map_to_list. Qed.

(** The deviation is computable exactly from three prices on. *)
Lemma StandardDeviation_error (prices : list Dec) :
  (exists err, StandardDeviation prices = inr err) <-> (length prices < 3)%nat.
Proof.
  unfold StandardDeviation.
  destruct (Nat.ltb_spec (length prices) 3); split; intros; try lia; eauto.
  by destruct H0.
Qed.

Lemma FilterTickerDeviations_error symbol (tickerPrices : gmap Name TickerPrice) T :
  (FilterTickerDeviations symbol tickerPrices T).2 <> None <-> (size tickerPrices < 3)%nat.
Proof.
  rewrite <- length_pricesOf, <- StandardDeviation_error.
  unfold FilterTickerDeviations.
  destruct (StandardDeviation (pricesOf tickerPrices)) as [[deviation mean]|err]; simpl.
  - split; [done | by intros [? ?]].
  - split; eauto.
Qed.

Lemma FilterTickerDeviations_error_id symbol (tickerPrices : gmap Name TickerPrice) T :
  (FilterTickerDeviations symbol tickerPrices T).2 <> None ->
  (FilterTickerDeviations symbol tickerPrices T).1 = tickerPrices.
Proof.
  unfold FilterTickerDeviations.
  by destruct (StandardDeviation (pricesOf tickerPrices)) as [[deviation mean]|err].
Qed.

Lemma FilterTickerDeviations_subseteq symbol (tickerPrices : gmap Name TickerPrice) T :
  (FilterTickerDeviations symbol tickerPrices T).1 ⊆ tickerPrices.
Proof.
  unfold FilterTickerDeviations.
  destruct (StandardDeviation (pricesOf tickerPrices)) as [[deviation mean]|err]; simpl.
  - apply map_filter_subseteq.
  - done.
Qed.

(** C5. When the mean [μ] and the deviation [σ] of the prices are computed,
    the filter returns no error and exactly the providers whose price lies
    in the closed interval [[μ − T·σ, μ + T·σ]], the product taken as a
    decimal and [T] defaulting to 1.0 when it is nil; when they cannot be
    computed, it returns the map it was given together with the error. *)
Theorem FilterTickerDeviations_interval
    symbol (tickerPrices : gmap Name TickerPrice) (T : option Dec) :
  (forall σ μ,
      StandardDeviation (pricesOf tickerPrices) = inl (σ, μ) ->
      let margin := Dec.Mul σ (default defaultDeviationThreshold T) in
      (FilterTickerDeviations symbol tickerPrices T).2 = None /\
      forall providerName tickerPrice,
        (FilterTickerDeviations symbol tickerPrices T).1 !! providerName = Some tickerPrice
        <-> tickerPrices !! providerName = Some tickerPrice
            /\ Dec.Sub μ margin <= Price tickerPrice <= Dec.Add μ margin)
  /\ (forall err,
        StandardDeviation (pricesOf tickerPrices) = inr err ->
        FilterTickerDeviations symbol tickerPrices T = (tickerPrices, Some err)).
Proof.
  split.
  - intros σ μ Hsd margin. unfold FilterTickerDeviations. rewrite Hsd. simpl.
    split; [done|]. intros providerName tickerPrice.
    rewrite map_lookup_filter_Some. simpl. by rewrite isBetween_spec.
  - intros err Hsd. unfold FilterTickerDeviations. by rewrite Hsd.
Qed.

(** C6 (amended). A second application of the filter with the same threshold
    never brings a provider back: its survivors are among those of the first
    application, and they are the same when fewer than three providers
    survived the first application. *)
Theorem FilterTickerDeviations_twice
    symbol (tickerPrices : gmap Name TickerPrice) (T : option Dec) :
  let survivors := (FilterTickerDeviations symbol tickerPrices T).1 in
  let again := (FilterTickerDeviations symbol survivors T).1 in
  again ⊆ survivors /\ ((size survivors < 3)%nat -> again = survivors).
Proof.
  intros survivors again. split.
  - apply FilterTickerDeviations_subseteq.
  - intros Hsize. apply FilterTickerDeviations_error_id.
    by apply FilterTickerDeviations_error.
Qed.

Lemma FilterTickerDeviations_interval_witness :
  (FilterTickerDeviations "XUSD" spreadQuotes None).2 = None
  /\ (FilterTickerDeviations "XUSD" spreadQuotes None).1 !! "c" = Some (quoteAt 3)
  /\ (FilterTickerDeviations "XUSD" spreadQuotes None).1 !! "d" = None.
Proof.
  destruct (FilterTickerDeviations_interval "XUSD" spreadQuotes None) as [Hin _].
  destruct (Hin 3535533905932737622 (Dec.NewDec 4)) as [Herr Hiff];
    [vm_compute; reflexivity|].
  split; [exact Herr|]. split.
  - apply Hiff. split; [vm_compute; reflexivity|]. vm_compute. split; discriminate.
  - destruct ((FilterTickerDeviations "XUSD" spreadQuotes None).1 !! "d") eqn:Hd; [|done].
    apply Hiff in Hd as [Hd Hrange]. vm_compute in Hd. inversion Hd; subst.
    vm_compute in Hrange. destruct Hrange as [_ Hhi]. exfalso. by apply Hhi.
Defined.

(** C6 (counterexample). Quotes 1, 2, 3 and 10 with the default threshold:
    the first application drops 10, the second one, run on the survivors
    1, 2 and 3, drops 1 and 3 as well. *)
Lemma FilterTickerDeviations_not_idempotent :
  let survivors := (FilterTickerDeviations "XUSD" spreadQuotes None).1 in
  (FilterTickerDeviations "XUSD" survivors None).1 <> survivors.
Proof.
  intros survivors Heq. apply (f_equal (fun m => m !! "a")) in Heq.
  vm_compute in Heq. discriminate.
Qed.

Lemma FilterTickerDeviations_twice_witness :
  (FilterTickerDeviations "XUSD" (FilterTickerDeviations "XUSD" spreadQuotes None).1 None).1
    !! "d" = None.
Proof.
  destruct (FilterTickerDeviations_twice "XUSD" spreadQuotes None) as [Hsub _].
  destruct (_ !! "d") eqn:Hd; [|done].
  eapply lookup_weaken in Hd; [|exact Hsub]. vm_compute in Hd. discriminate.
Defined.

(** ** The resolver *)

(** C10. With no provider price at all the resolver returns a nil map and
    no error, and so does [GetComputedPrices]; [SetPrices] then succeeds and
    stores the nil map. *)
Theorem convertTickersToUSD_no_prices
    (pairs : gmap Name (list CurrencyPair)) (thresholds : gmap string Dec)
    (minOverrides : gmap string Z) :
  convertTickersToUSD ∅ pairs thresholds minOverrides = (None, None)
  /\ GetComputedPrices ∅ pairs thresholds minOverrides = (None, None)
  /\ forall o env,
      newProviderError env = None -> collectProviderPrices o env = ∅ ->
      SetPrices o env = (setPrices o None, None).
Proof.
  assert (Hconv : forall p t m,
             convertTickersToUSD ∅ p t m = (None, None)) by done.
  split; [apply Hconv|]. split.
  - unfold GetComputedPrices. by rewrite Hconv.
  - intros o env Herr Hempty. unfold SetPrices, GetComputedPrices.
    by rewrite Herr, Hempty, Hconv.
Qed.

Lemma finalRates_lookup thresholds minOverrides
    (usdRates : gmap string (gmap Name TickerPrice)) denom :
  finalRates thresholds minOverrides usdRates !! denom
  = usdRates !! denom ≫= finalRate thresholds minOverrides denom.
Proof. unfold finalRates. apply map_lookup_imap. Qed.

Lemma rated_None (filtered : gmap Name TickerPrice) :
  match vwapRate filtered with
  | inr _ => None
  | inl rate => if Dec.IsZero rate then None else Some rate
  end = None <-> ~ usableRate filtered.
Proof.
  unfold usableRate, Dec.IsZero.
  destruct (vwapRate filtered) as [rate|err].
  - destruct (Z.eqb_spec rate 0) as [->|Hne]; split; try done.
    + intros _ (rate & [= <-] & Hnz). done.
    + intros Hno. destruct Hno. eauto.
  - split; [|done]. intros _ (rate & [=] & _).
Qed.

(** C4 (amended). In the last loop, a base whose filter returns an error is
    left out of the output exactly when the number of its filtered tickers
    is below its provider minimum (3 when none is configured), or the VWAP
    of the filtered tickers cannot be computed or is zero. *)
Theorem finalRates_filter_error
    (thresholds : gmap string Dec) (minOverrides : gmap string Z)
    (usdRates : gmap string (gmap Name TickerPrice)) denom tickers :
  usdRates !! denom = Some tickers ->
  (FilterTickerDeviations denom tickers (thresholds !! denom)).2 <> None ->
  let filtered := (FilterTickerDeviations denom tickers (thresholds !! denom)).1 in
  finalRates thresholds minOverrides usdRates !! denom = None
  <-> Z.of_nat (size filtered) < default 3 (minOverrides !! denom)
      \/ ~ usableRate filtered.
Proof.
  intros Hdenom Herr filtered.
  rewrite finalRates_lookup, Hdenom. simpl. unfold finalRate.
  pose proof (FilterTickerDeviations_error_id _ _ _ Herr) as Hid.
  pose proof (proj1 (FilterTickerDeviations_error _ _ _) Herr) as Hsize.
  subst filtered.
  destruct (FilterTickerDeviations denom tickers (thresholds !! denom))
    as [filtered [err|]]; [|done]. simpl in *. subst filtered.
  destruct (minOverrides !! denom) as [minimum|]; simpl.
  - destruct (Z.ltb_spec (Z.of_nat (size tickers)) minimum).
    + split; [intros _; by left | done].
    + rewrite rated_None. split; [by right | intros [?|?]; [lia | done]].
  - split; [intros _; left; lia | done].
Qed.

Lemma finalRates_filter_error_witness :
  finalRates ∅ oneProviderForX {[ "X" := {[ "zero" := zeroQuote 0 ]} ]} !! "X" = None.
Proof.
  apply (finalRates_filter_error ∅ oneProviderForX _ "X" {[ "zero" := zeroQuote 0 ]}).
  - reflexivity.
  - vm_compute. discriminate.
  - right. intros (rate & Hrate & Hnz). vm_compute in Hrate.
    injection Hrate as <-. by apply Hnz.
Defined.

(** C4 (counterexample). X needs one provider and has one ticker, from the
    zero provider: the filter fails (one price), one filtered ticker is not
    below the minimum of one, and yet X is left out, its VWAP being zero. *)
Lemma finalRates_zero_rate_dropped :
  let tickers : gmap Name TickerPrice := {[ "zero" := zeroQuote 0 ]} in
  let filtered := (FilterTickerDeviations "X" tickers None).1 in
  (FilterTickerDeviations "X" tickers None).2 <> None
  /\ ~ (Z.of_nat (size filtered) < default 3 (oneProviderForX !! "X"))
  /\ finalRates ∅ oneProviderForX {[ "X" := tickers ]} !! "X" = None
  /\ convertTickersToUSD zeroOnlyPrices zeroOnlyPairs ∅ oneProviderForX = (Some ∅, None).
Proof.
  repeat split; try (vm_compute; congruence).
Qed.

(** *** Sorting and reordering the pairs *)

Lemma pairLess_false (q p : CurrencyPair) : pairLess q p = false -> symbolLe p q.
Proof.
  unfold pairLess, symbolLe, String.ltb, String.leb.
  rewrite (String.compare_antisym (symbolOf p)).
  by destruct (String.compare (symbolOf q) (symbolOf p)).
Qed.

Lemma pairLess_true (q p : CurrencyPair) : pairLess q p = true -> symbolLe q p.
Proof.
  unfold pairLess, symbolLe, String.ltb, String.leb.
  by destruct (String.compare (symbolOf q) (symbolOf p)).
Qed.

Lemma insertPair_perm (p : CurrencyPair) (l : list CurrencyPair) :
  insertPair p l ≡ₚ p :: l.
Proof.
  induction l as [|q l IH]; simpl; [done|].
  destruct (pairLess q p); [|done].
  rewrite IH. apply Permutation_swap.
Qed.

Lemma insertPair_sorted (p : CurrencyPair) (l : list CurrencyPair) :
  Sorted symbolLe l -> Sorted symbolLe (insertPair p l).
Proof.
  induction l as [|q l IH]; simpl; intros Hsorted.
  - repeat constructor.
  - destruct (pairLess q p) eqn:Hless.
    + apply Sorted_inv in Hsorted as [Hl Hhd].
      constructor; [by apply IH|].
      destruct l as [|r l]; simpl.
      * constructor. by apply pairLess_true.
      * destruct (pairLess r p); constructor.
        -- by apply HdRel_inv in Hhd.
        -- by apply pairLess_true.
    + constructor; [done|]. constructor. by apply pairLess_false.
Qed.

Lemma sortPairs_perm (pairs : list CurrencyPair) : sortPairs pairs ≡ₚ pairs.
Proof.
  induction pairs as [|p l IH]; simpl; [done|].
  by rewrite insertPair_perm, IH.
Qed.

Lemma sortPairs_sorted (pairs : list CurrencyPair) : Sorted symbolLe (sortPairs pairs).
Proof.
  induction pairs as [|p l IH]; simpl; [constructor|].
  by apply insertPair_sorted.
Qed.

Lemma reorderPairs_snoc usdRates (pairs : list CurrencyPair) pair :
  reorderPairs usdRates (pairs ++ [pair])
  = match usdRates !! Base pair with
    | Some _ => pair :: reorderPairs usdRates pairs
    | None => reorderPairs usdRates pairs ++ [pair]
    end.
Proof. unfold reorderPairs. by rewrite foldl_app. Qed.

Lemma reorderPairs_partition usdRates (pairs : list CurrencyPair) :
  reorderPairs usdRates pairs
  = rev (filter (fun pair => is_Some (usdRates !! Base pair)) pairs)
    ++ filter (fun pair => ~ is_Some (usdRates !! Base pair)) pairs.
Proof.
  induction pairs as [|pair pairs IH] using rev_ind; [done|].
  rewrite reorderPairs_snoc, !filter_app, rev_app_distr, IH.
  rewrite !filter_cons, !filter_nil.
  destruct (usdRates !! Base pair) as [rates|] eqn:Hbase.
  - rewrite decide_True by eauto. rewrite decide_False by (intros Hno; apply Hno; eauto).
    simpl. by rewrite app_nil_r.
  - rewrite decide_False by (by intros [? ?]). rewrite decide_True by (by intros [? ?]).
    simpl. by rewrite app_assoc.
Qed.

(** C3 (amended). A resolver round starts from the pending pairs sorted by
    symbol, and then takes first the pairs whose base has an entry in
    [usdRates], in reverse order of their symbols, followed by the other
    pairs in the order of their symbols. *)
Theorem reorderPairs_sorted
    (usdRates : gmap string (gmap Name TickerPrice)) (pairs : list CurrencyPair) :
  let sorted := sortPairs pairs in
  sorted ≡ₚ pairs
  /\ Sorted symbolLe sorted
  /\ reorderPairs usdRates sorted
     = rev (filter (fun pair => is_Some (usdRates !! Base pair)) sorted)
       ++ filter (fun pair => ~ is_Some (usdRates !! Base pair)) sorted.
Proof.
  intros sorted. split; [apply sortPairs_perm|].
  split; [apply sortPairs_sorted | apply reorderPairs_partition].
Qed.

(** C3 (counterexample). In the first round ATOM and BTC get a USD rate and
    their USDT pairs stay pending; the second round then takes BTCUSDT
    before ATOMUSDT, while keeping the order of the symbols inside the group
    would take ATOMUSDT first. *)
Lemma reorderPairs_not_stable :
  exists usdRates unresolved,
    convertPairs (groupBySymbol tetherPrices) ∅ ∅
                 (reorderPairs ∅ (sortPairs tetherPairs)) ∅ []
    = inl (usdRates, unresolved)
    /\ reorderPairs usdRates (sortPairs unresolved)
       = [pairOf "BTC" "USDT"; pairOf "ATOM" "USDT"]
    /\ filter (fun pair => is_Some (usdRates !! Base pair)) (sortPairs unresolved)
       ++ filter (fun pair => ~ is_Some (usdRates !! Base pair)) (sortPairs unresolved)
       = [pairOf "ATOM" "USDT"; pairOf "BTC" "USDT"]
    /\ reorderPairs usdRates (sortPairs unresolved)
       <> filter (fun pair => is_Some (usdRates !! Base pair)) (sortPairs unresolved)
          ++ filter (fun pair => ~ is_Some (usdRates !! Base pair)) (sortPairs unresolved).
Proof.
  eexists _, _. split; [vm_compute; reflexivity|].
  split; [vm_compute; reflexivity|]. split; [vm_compute; reflexivity|].
  intros Heq. vm_compute in Heq. discriminate.
Qed.

(** ** Collecting prices *)

Lemma mergeTicker_lookup derivatives providerName prices
    (providerPrices : gmap Name (gmap string TickerPrice)) pair name symbol ticker :
  tickerOf (mergeTicker derivatives providerName prices providerPrices pair) name symbol
  = Some ticker ->
  tickerOf providerPrices name symbol = Some ticker
  \/ (name = providerName /\ symbol = symbolOf pair
      /\ prices !! symbol = Some (Ticker ticker) /\ symbol ∉ derivatives).
Proof.
  unfold mergeTicker, tickerOf.
  destruct (prices !! symbolOf pair) as [[|found]|] eqn:Hprice; try by left.
  destruct (decide (symbolOf pair ∈ derivatives)) as [|Hlive]; [by left|].
  destruct (decide (name = providerName)) as [->|Hname].
  - rewrite lookup_insert_eq. simpl.
    destruct (decide (symbol = symbolOf pair)) as [->|Hsymbol].
    + rewrite lookup_insert_eq. intros [= <-]. by right.
    + rewrite lookup_insert_ne by done. intros Hold. left.
      by destruct (providerPrices !! providerName).
  - rewrite lookup_insert_ne by done. by left.
Qed.

(** C7 (amended). A ticker that the merge of a provider's answer writes into
    the aggregated prices is one that the provider returned for one of its
    pairs, outside the derivative symbols, and that is not the zero value
    [TickerPrice{}]; every other entry was in the aggregated prices before.
    Nothing is required of its price. *)
Theorem mergeProviderPrices_accepted
    derivatives providerName (currencyPairs : list CurrencyPair) prices
    (providerPrices : gmap Name (gmap string TickerPrice)) name symbol ticker :
  tickerOf (mergeProviderPrices derivatives providerName currencyPairs prices providerPrices)
           name symbol = Some ticker ->
  tickerOf providerPrices name symbol = Some ticker
  \/ (name = providerName
      /\ prices !! symbol = Some (Ticker ticker)
      /\ (symbol ∉ derivatives)
      /\ exists pair, pair ∈ currencyPairs /\ symbolOf pair = symbol).
Proof.
  unfold mergeProviderPrices.
  assert (Hsub : forall pair,
             pair ∈ List.filter (hasTicker prices) currencyPairs -> pair ∈ currencyPairs).
  { intros pair Hin. apply list_elem_of_In, List.filter_In in Hin.
    apply list_elem_of_In. tauto. }
  revert providerPrices Hsub.
  induction (List.filter (hasTicker prices) currencyPairs) as [|pair pairs IH];
    intros providerPrices Hsub; simpl; [by left|].
  intros Hlookup. apply IH in Hlookup as [Hstep|Hnew].
  - apply mergeTicker_lookup in Hstep as [Hold|(-> & -> & Hprice & Hlive)]; [by left|].
    right. repeat split; try done. exists pair. split; [|done]. apply Hsub. by left.
  - by right.
  - intros other Hin. apply Hsub. by right.
Qed.

Lemma mergeProviderPrices_accepted_witness :
  ({[ "XUSD" := Ticker (zeroQuote 7) ]} : gmap string ProviderTicker) !! "XUSD"
  = Some (Ticker (zeroQuote 7)).
Proof.
  destruct (mergeProviderPrices_accepted ∅ "zero" [pairXUSD]
              {[ "XUSD" := Ticker (zeroQuote 7) ]} ∅ "zero" "XUSD" (zeroQuote 7))
    as [Hold|(_ & Hprice & _)].
  - vm_compute. reflexivity.
  - vm_compute in Hold. discriminate.
  - exact Hprice.
Defined.

(** C7 (counterexample). The zero provider polls X/USD and answers with the
    ticker it stored, price 0 and volume 1: the ticker is not the zero value
    and is merged as it is. *)
Lemma mergeProviderPrices_zero_price :
  Poll {[ "XUSD" := pairXUSD ]} ∅ 7 !! "XUSD" = Some (zeroQuote 7)
  /\ tickerOf (mergeProviderPrices ∅ "zero" [pairXUSD]
                                   {[ "XUSD" := Ticker (zeroQuote 7) ]} ∅)
              "zero" "XUSD" = Some (zeroQuote 7)
  /\ ~ (0 < Price (zeroQuote 7)).
Proof.
  split; [vm_compute; reflexivity|].
  split; [vm_compute; reflexivity | vm_compute; discriminate].
Qed.

(** ** The vote scheduler *)

Lemma timeNow_not_epoch (t : Z) : timeNow t <> unixEpoch.
Proof. discriminate. Qed.

Lemma SetPrices_scheduler (o : Oracle) (env : TickEnv) :
  previousPrevote (SetPrices o env).1 = previousPrevote o
  /\ previousVotePeriod (SetPrices o env).1 = previousVotePeriod o
  /\ VotePeriod (SetPrices o env).1 = VotePeriod o
  /\ OperatorAccount (SetPrices o env).1 = OperatorAccount o.
Proof.
  unfold SetPrices. destruct (newProviderError env); [done|].
  by destruct (GetComputedPrices _ _ _ _) as [computed [err|]].
Qed.

Lemma SetPrices_error (o : Oracle) (env : TickEnv) err :
  (SetPrices o env).2 = Some err -> SetPrices o env = (o, Some err).
Proof.
  unfold SetPrices. destruct (newProviderError env); [by intros [= ->]|].
  destruct (GetComputedPrices _ _ _ _) as [computed [err'|]]; [by intros [= ->]|done].
Qed.

Section SchedulerProperties.

Variable tmhashSumTruncated : string -> string.
Variable exchangeRatesString : option (gmap string Dec) -> option string.

Abbreviation tick := (tick tmhashSumTruncated exchangeRatesString).
Abbreviation runTicks := (runTicks tmhashSumTruncated exchangeRatesString).
Abbreviation GetAggregateVoteHash := (GetAggregateVoteHash tmhashSumTruncated).
Abbreviation votesBound := (votesBound tmhashSumTruncated).
Abbreviation pendingBound := (pendingBound tmhashSumTruncated).

(** The scheduler only moves between its three states. *)
Lemma tick_schedulerState (o : Oracle) (env : TickEnv) :
  schedulerState o -> schedulerState (tick o env).1.1.
Proof.
  intros Hstate. unfold tick.
  destruct (_ && _); [done|].
  destruct (SetPrices_scheduler o env) as (Hprevote & Hperiod & _ & _).
  destruct (SetPrices o env) as [o' failed]; simpl in Hprevote, Hperiod.
  assert (Hkept : schedulerState o').
  { unfold schedulerState, Idle, PrevoteSubmitted in *. by rewrite Hprevote, Hperiod. }
  destruct failed as [err|]; [done|].
  destruct (_ && _); [right; left; by split|].
  destruct (generatedSalt env) as [salt|err]; [|done].
  destruct (exchangeRatesString (prices o')) as [exchangeRatesStr|]; [|done].
  destruct (previousPrevote o') as [prevote|];
    (destruct (putTxFails env); [done|]); simpl.
  - right; left. by split.
  - right; right. eexists _, _. by split.
Qed.

Lemma runTicks_schedulerState (envs : list TickEnv) (o : Oracle) :
  schedulerState o -> schedulerState (runTicks o envs).1.
Proof.
  revert o. induction envs as [|env envs IH]; intros o Hstate; [done|]. simpl.
  pose proof (tick_schedulerState o env Hstate) as Hstep.
  destruct (tick o env) as [[o' events] [err|]]; simpl in *; [|done].
  specialize (IH o' Hstep). by destruct (runTicks o' envs).
Qed.

(** C2 (amended). A tick that arrives while a prevote is pending and
    before the end of the current vote window returns at once: it does not
    collect prices, submits nothing, and leaves the oracle as it was. *)
Theorem tick_before_window_end (o : Oracle) (env : TickEnv) prevote start :
  PrevoteSubmitted o prevote start ->
  now env < start + VotePeriod o ->
  tick o env = (o, [], Returned None).
Proof.
  intros [_ Hperiod] Hnow. unfold tick. rewrite Hperiod.
  rewrite bool_decide_eq_true_2 by apply timeNow_not_epoch.
  unfold timeAfter. simpl.
  by rewrite (proj2 (Z.ltb_lt _ _) Hnow).
Qed.

(** C8 (amended). A tick that arrives while a prevote is pending and after
    the end of the next vote window first collects prices.  When that
    succeeds, it counts a missed vote, drops the pending prevote, leaves
    the scheduler idle and submits nothing; when it fails, the tick returns
    the error and the prevote stays pending. *)
Theorem tick_after_next_window (o : Oracle) (env : TickEnv) prevote start :
  PrevoteSubmitted o prevote start ->
  0 <= VotePeriod o ->
  start + 2 * VotePeriod o < now env ->
  ((SetPrices o env).2 = None ->
   exists o',
     tick o env = (o', [CollectPrices; CountMissedVote], Returned None)
     /\ Idle o'
     /\ published [CollectPrices; CountMissedVote] = [])
  /\ (forall err,
        (SetPrices o env).2 = Some err ->
        tick o env = (o, [CollectPrices], Returned (Some err))).
Proof.
  intros [_ Hperiod] Hvote Hnow.
  assert (Hfirst : bool_decide (previousVotePeriod o ≠ unixEpoch)
                   && timeAfter (timeAdd (previousVotePeriod o) (VotePeriod o))
                                (timeNow (now env)) = false).
  { rewrite Hperiod. unfold timeAfter. simpl.
    rewrite (proj2 (Z.ltb_ge _ _)) by lia. apply andb_false_r. }
  split.
  - intros Hok. unfold tick. rewrite Hfirst.
    destruct (SetPrices_scheduler o env) as (_ & Hperiod' & Hvote' & _).
    destruct (SetPrices o env) as [o' err]. simpl in *. subst err.
    rewrite Hperiod', Hperiod.
    rewrite bool_decide_eq_true_2 by apply timeNow_not_epoch.
    unfold timeBefore. simpl.
    rewrite (proj2 (Z.ltb_lt _ _)) by lia. simpl.
    eexists. split; [reflexivity|]. by split.
  - intros err Herr. unfold tick. rewrite Hfirst.
    by rewrite (SetPrices_error _ _ _ Herr).
Qed.

(** *** Prevote and vote *)

Lemma snoc_split {A} (l before after : list A) (x y : A) :
  l ++ [x] = before ++ y :: after ->
  (after = [] /\ l = before /\ x = y)
  \/ exists after', after = after' ++ [x] /\ l = before ++ y :: after'.
Proof.
  destruct after as [|z after'] using rev_ind; intros Heq.
  - apply app_inj_tail in Heq as [-> ->]. by left.
  - right. exists after'.
    change (l ++ [x] = before ++ (y :: after') ++ [z]) in Heq.
    rewrite app_assoc in Heq. apply app_inj_tail in Heq as [-> ->]. done.
Qed.

Lemma votesBound_nil : votesBound [].
Proof. intros before salt rates feeder after Heq. by destruct before. Qed.

Lemma votesBound_prevote msgs hash feeder :
  votesBound msgs -> votesBound (msgs ++ [MsgAggregateExchangeRatePrevote hash feeder]).
Proof.
  intros Hbound before salt rates feeder' after Heq.
  apply snoc_split in Heq as [(_ & _ & [=])|(after' & _ & ->)].
  by eapply Hbound.
Qed.

Lemma votesBound_vote msgs salt rates feeder :
  votesBound (msgs ++ [MsgAggregateExchangeRatePrevote
                         (GetAggregateVoteHash salt rates feeder) feeder]) ->
  votesBound ((msgs ++ [MsgAggregateExchangeRatePrevote
                          (GetAggregateVoteHash salt rates feeder) feeder])
              ++ [MsgAggregateExchangeRateVote salt rates feeder]).
Proof.
  intros Hbound before salt' rates' feeder' after Heq.
  apply snoc_split in Heq as [(_ & <- & [= <- <- <-])|(after' & _ & Heq)].
  - by exists msgs.
  - by eapply Hbound.
Qed.

Lemma tick_pendingBound (o : Oracle) (env : TickEnv) msgs :
  pendingBound o msgs ->
  pendingBound (tick o env).1.1 (msgs ++ published (tick o env).1.2).
Proof.
  intros Hinv. pose proof Hinv as [Hbound Hpending]. unfold tick.
  destruct (_ && _); [simpl; by rewrite app_nil_r|].
  destruct (SetPrices_scheduler o env) as (Hprevote & _ & _ & Haccount).
  destruct (SetPrices o env) as [o' failed]; simpl in Hprevote, Haccount.
  assert (Hkept : pendingBound o' msgs).
  { split; [done|]. by rewrite Hprevote, Haccount. }
  destruct failed as [err|]; [simpl; by rewrite app_nil_r|].
  destruct (_ && _).
  { simpl. rewrite app_nil_r. split; [done|]. intros prevote [=]. }
  destruct (generatedSalt env) as [salt|err];
    [|simpl; by rewrite app_nil_r].
  destruct (exchangeRatesString (prices o')) as [exchangeRatesStr|];
    [|simpl; by rewrite app_nil_r].
  rewrite Hprevote.
  destruct (previousPrevote o) as [prevote|] eqn:Hprev.
  - destruct (putTxFails env); simpl; [by rewrite app_nil_r|].
    destruct (Hpending prevote eq_refl) as [before ->].
    rewrite Haccount.
    split; [by apply votesBound_vote | intros other [=]].
  - destruct (putTxFails env); simpl; [by rewrite app_nil_r|].
    split; [by apply votesBound_prevote|].
    intros prevote [= <-]. simpl. by eexists.
Qed.

Lemma runTicks_pendingBound (envs : list TickEnv) (o : Oracle) msgs :
  pendingBound o msgs ->
  votesBound (msgs ++ publishedBy (runTicks o envs).2).
Proof.
  revert o msgs. induction envs as [|env envs IH]; intros o msgs Hinv; simpl.
  - unfold publishedBy. simpl. rewrite app_nil_r. apply Hinv.
  - pose proof (tick_pendingBound o env msgs Hinv) as Hstep.
    destruct (tick o env) as [[o' events] [err|]]; simpl in *.
    + specialize (IH o' _ Hstep).
      destruct (runTicks o' envs) as [o'' rest]. simpl in *.
      unfold publishedBy in *. simpl. by rewrite app_assoc.
    + unfold publishedBy. simpl. rewrite app_nil_r. apply Hstep.
Qed.


End SchedulerProperties.

Lemma submittedOracle_state : PrevoteSubmitted submittedOracle submittedPrevote (2 * 10 ^ 9).
Proof. split; vm_compute; reflexivity. Qed.


Lemma tick_before_window_end_witness :
  tick plainDigest plainRates submittedOracle (tetherTick 4 1)
  = (submittedOracle, [], Returned None).
Proof.
  apply (tick_before_window_end plainDigest plainRates submittedOracle (tetherTick 4 1)
           submittedPrevote (2 * 10 ^ 9)).
  - split; vm_compute; reflexivity.
  - vm_compute. reflexivity.
Defined.

(** C2 (counterexample). A prevote was submitted at second 2 and the window
    ends at second 7; the tick at second 4 does not collect prices. *)
Lemma tick_before_window_end_no_prices :
  PrevoteSubmitted submittedOracle submittedPrevote (2 * 10 ^ 9)
  /\ now (tetherTick 4 1) < 2 * 10 ^ 9 + VotePeriod submittedOracle
  /\ CollectPrices ∉ (tick plainDigest plainRates submittedOracle (tetherTick 4 1)).1.2.
Proof.
  split; [apply submittedOracle_state|]. split; [vm_compute; reflexivity|].
  assert (Hevents : (tick plainDigest plainRates submittedOracle (tetherTick 4 1)).1.2 = [])
    by (vm_compute; reflexivity).
  rewrite Hevents. apply not_elem_of_nil.
Qed.

Lemma tick_after_next_window_witness :
  exists o',
    tick plainDigest plainRates submittedOracle (tetherTick 13 1)
    = (o', [CollectPrices; CountMissedVote], Returned None)
    /\ Idle o'
    /\ published [CollectPrices; CountMissedVote] = [].
Proof.
  apply (tick_after_next_window plainDigest plainRates submittedOracle (tetherTick 13 1)
           submittedPrevote (2 * 10 ^ 9)).
  - split; vm_compute; reflexivity.
  - vm_compute. discriminate.
  - vm_compute. reflexivity.
  - vm_compute. reflexivity.
Defined.

(** C8 (counterexample). A prevote was submitted at second 2, so the next
    window ends at second 12.  At second 13 the fourth provider quotes USDT
    at 2 instead of 1: with the threshold 0.5 the filter leaves no USDT rate,
    the conversion of ATOM/USDT fails and so does [SetPrices].  The tick
    returns that error: the prevote stays pending and no missed vote is
    counted. *)
Lemma tick_after_next_window_error :
  PrevoteSubmitted submittedOracle submittedPrevote (2 * 10 ^ 9)
  /\ 2 * 10 ^ 9 + 2 * VotePeriod submittedOracle < now (tetherTick 13 2)
  /\ tick plainDigest plainRates submittedOracle (tetherTick 13 2)
     = (submittedOracle, [CollectPrices], Returned (Some "no tickers supplied"))
  /\ previousPrevote submittedOracle = Some submittedPrevote
  /\ CountMissedVote ∉ [CollectPrices].
Proof.
  split; [apply submittedOracle_state|]. split; [vm_compute; reflexivity|].
  split; [vm_compute; reflexivity|]. split; [vm_compute; reflexivity|].
  intros Hin. apply list_elem_of_singleton in Hin. discriminate.
Qed.

(** ** Adding a ticker *)

(** C9 (counterexample). Three providers quote X/USD at 10 and X is priced
    at 10.  With a fourth provider quoting 20 and the threshold 0.5, no
    quote lies within half a deviation of the mean: the filter leaves no
    ticker and X is not in the output any more. *)
Lemma convertTickersToUSD_add_ticker_drops :
  tickerOf agreedPrices "d" "XUSD" = None
  /\ rateOf (convertTickersToUSD agreedPrices fourProviders halfSigmaForX ∅) "X"
     = Some (Dec.NewDec 10)
  /\ rateOf (convertTickersToUSD (addTicker agreedPrices "d" "XUSD" (quoteAt 20))
                                 fourProviders halfSigmaForX ∅) "X"
     = None.
Proof. repeat split; vm_compute; reflexivity. Qed.

(** With a pair that is converted through USDT, a fourth USDT quote of 2
    empties the filtered USDT rates; the conversion of ATOM/USDT then fails
    and the resolver returns the error and no price at all: BTC, which the
    added ticker does not concern, is gone too. *)
Lemma convertTickersToUSD_add_ticker_fails :
  rateOf (convertTickersToUSD convertedPrices convertedPairs halfSigmaForUSDT ∅) "BTC"
  = Some (Dec.NewDec 100)
  /\ convertTickersToUSD (addTicker convertedPrices "d" "USDTUSD" (quoteAt 2))
                         convertedPairs halfSigmaForUSDT ∅
     = (None, Some "no tickers supplied").
Proof. split; vm_compute; reflexivity. Qed.

Lemma addRates_union symbol (rates tickers : gmap Name TickerPrice) :
  addRates symbol rates tickers = rates ∪ tickers.
Proof.
  unfold addRates.
  apply (map_fold_weak_ind (fun acc (m : gmap Name TickerPrice) => acc = rates ∪ m)).
  - by rewrite (right_id_L ∅ (∪)).
  - intros i x m acc Hi ->.
    destruct ((rates ∪ m) !! i) as [y|] eqn:Hlookup.
    + apply lookup_union_Some_raw in Hlookup as [Hrates|[_ Hm]]; [|congruence].
      apply map_eq. intros j. rewrite !lookup_union.
      destruct (decide (i = j)) as [<-|Hne].
      * rewrite Hrates, Hi, lookup_insert_eq. done.
      * by rewrite lookup_insert_ne.
    + apply lookup_union_None in Hlookup as [Hrates _].
      by rewrite insert_union_r.
Qed.

Lemma groupBySymbol_lookup (providerPrices : gmap Name (gmap string TickerPrice))
    symbol providerName :
  quotesOf providerPrices symbol !! providerName = tickerOf providerPrices providerName symbol.
Proof.
  unfold quotesOf, tickerOf, groupBySymbol. revert symbol providerName.
  apply (map_fold_weak_ind
           (fun acc (m : gmap Name (gmap string TickerPrice)) =>
              forall symbol providerName,
                default ∅ (acc !! symbol) !! providerName
                = (m !! providerName) ≫= (fun tickerPrices => tickerPrices !! symbol))).
  - intros symbol providerName. by rewrite !lookup_empty.
  - intros i x m acc Hi IH symbol providerName.
    assert (Hinner : forall symbol providerName,
               default ∅ (map_fold
                            (fun symbol tickerPrice bySymbol =>
                               <[symbol := <[i := tickerPrice]>
                                             (default ∅ (bySymbol !! symbol))]> bySymbol)
                            acc x !! symbol) !! providerName
               = if decide (providerName = i) then x !! symbol
                 else default ∅ (acc !! symbol) !! providerName).
    { apply (map_fold_weak_ind
               (fun acc' (m' : gmap string TickerPrice) =>
                  forall symbol providerName,
                    default ∅ (acc' !! symbol) !! providerName
                    = if decide (providerName = i) then m' !! symbol
                      else default ∅ (acc !! symbol) !! providerName)).
      - intros sym name. destruct (decide (name = i)) as [->|]; [|done].
        by rewrite IH, Hi, lookup_empty.
      - intros j y m' acc' Hj IH' sym name.
        destruct (decide (j = sym)) as [->|Hsym].
        + rewrite lookup_insert_eq. simpl.
          destruct (decide (name = i)) as [->|Hname].
          * by rewrite !lookup_insert_eq.
          * rewrite lookup_insert_ne by done. rewrite IH'. by rewrite decide_False.
        + rewrite lookup_insert_ne by done. rewrite IH'.
          destruct (decide (name = i)); [by rewrite lookup_insert_ne|done]. }
    rewrite Hinner. destruct (decide (providerName = i)) as [->|Hname].
    + by rewrite lookup_insert_eq.
    + rewrite lookup_insert_ne by done. apply IH.
Qed.

Lemma quotesOf_addTicker (providerPrices : gmap Name (gmap string TickerPrice))
    providerName symbol ticker other :
  quotesOf (addTicker providerPrices providerName symbol ticker) other
  = if decide (other = symbol)
    then <[providerName := ticker]> (quotesOf providerPrices symbol)
    else quotesOf providerPrices other.
Proof.
  apply map_eq. intros name. rewrite groupBySymbol_lookup.
  unfold tickerOf, addTicker.
  destruct (decide (other = symbol)) as [->|Hsym];
    (destruct (decide (name = providerName)) as [->|Hname];
     [rewrite !lookup_insert_eq; simpl
     |rewrite !lookup_insert_ne by done; by rewrite groupBySymbol_lookup]).
  - by rewrite lookup_insert_eq.
  - rewrite lookup_insert_ne by done. rewrite groupBySymbol_lookup. unfold tickerOf.
    by destruct (providerPrices !! providerName).
Qed.

Lemma reorderPairs_perm usdRates (pairs : list CurrencyPair) :
  reorderPairs usdRates pairs ≡ₚ pairs.
Proof.
  rewrite reorderPairs_partition, <- Permutation_rev.
  apply filter_app_complement.
Qed.

Lemma convertPair_usd bySymbol thresholds minOverrides usdRates pair :
  Quote pair = "USD" ->
  convertPair bySymbol thresholds minOverrides usdRates pair
  = NewRates (default ∅ (bySymbol !! usdSymbol (Base pair))).
Proof.
  intros Hquote. unfold convertPair, usdSymbol, symbolOf. simpl. by rewrite Hquote.
Qed.

Lemma usdTableOf_ext bySymbol (bases bases' : list string) usdRates :
  (forall base, base ∈ bases <-> base ∈ bases') ->
  usdTableOf bySymbol bases usdRates -> usdTableOf bySymbol bases' usdRates.
Proof.
  intros Hsame Htable base. rewrite Htable.
  rewrite (bool_decide_ext _ (base ∈ bases'
                            /\ default ∅ (bySymbol !! usdSymbol base) ≠ ∅)); [done|].
  by rewrite Hsame.
Qed.

Lemma usdTableOf_step bySymbol symbol (met : list string) usdRates base :
  usdTableOf bySymbol met usdRates ->
  usdTableOf bySymbol (met ++ [base])
    (if (0 <? size (default ∅ (bySymbol !! usdSymbol base)))%nat
     then <[base := addRates symbol (default ∅ (usdRates !! base))
                             (default ∅ (bySymbol !! usdSymbol base))]> usdRates
     else usdRates).
Proof.
  intros Htable other.
  set (quotes := default ∅ (bySymbol !! usdSymbol base)).
  destruct (Nat.ltb_spec 0 (size quotes)) as [Hsize|Hsize].
  - assert (Hquotes : quotes ≠ ∅) by (apply map_size_non_empty_iff; lia).
    destruct (decide (other = base)) as [->|Hother].
    + rewrite lookup_insert_eq, addRates_union, Htable.
      rewrite (bool_decide_eq_true_2 (base ∈ met ++ [base] /\ _))
        by (split; [apply elem_of_app; right; by apply list_elem_of_singleton | done]).
      f_equal. case_bool_decide; simpl.
      * apply (idemp_L (∪)).
      * apply (left_id_L ∅ (∪)).
    + rewrite lookup_insert_ne by done. rewrite Htable.
      apply (f_equal (fun b : bool => if b then _ else _)).
      apply bool_decide_ext. rewrite elem_of_app, list_elem_of_singleton. tauto.
  - assert (Hquotes : quotes = ∅) by (apply map_size_empty_iff; lia).
    rewrite Htable.
    apply (f_equal (fun b : bool => if b then _ else _)).
    apply bool_decide_ext.
    destruct (decide (other = base)) as [->|Hother];
      [|rewrite elem_of_app, list_elem_of_singleton; tauto].
    fold quotes. rewrite Hquotes. split; intros [_ Hne]; done.
Qed.

Lemma convertPairs_usd bySymbol thresholds minOverrides
    (pairs : list CurrencyPair) (met : list string) usdRates unresolved :
  Forall (fun pair => Quote pair = "USD") pairs ->
  usdTableOf bySymbol met usdRates ->
  exists usdRates',
    convertPairs bySymbol thresholds minOverrides pairs usdRates unresolved
    = inl (usdRates', unresolved)
    /\ usdTableOf bySymbol (met ++ (Base <$> pairs)) usdRates'.
Proof.
  revert met usdRates.
  induction pairs as [|pair pairs IH]; intros met usdRates Husd Htable; simpl.
  - exists usdRates. by rewrite app_nil_r.
  - apply Forall_cons in Husd as [Hquote Husd].
    rewrite (convertPair_usd _ _ _ _ _ Hquote).
    pose proof (usdTableOf_step bySymbol (symbolOf pair) met usdRates (Base pair) Htable)
      as Hstep.
    destruct (0 <? size (default ∅ (bySymbol !! usdSymbol (Base pair))))%nat;
      destruct (IH _ _ Husd Hstep) as (usdRates' & -> & Htable');
      exists usdRates'; (split; [done|]); by rewrite <- app_assoc in Htable'.
Qed.

Lemma convertRounds_usd bySymbol thresholds minOverrides rounds (pairs : list CurrencyPair) :
  Forall (fun pair => Quote pair = "USD") pairs ->
  exists usdRates,
    convertRounds bySymbol thresholds minOverrides (S rounds) pairs ∅ = inl usdRates
    /\ usdTableOf bySymbol (Base <$> pairs) usdRates.
Proof.
  intros Husd. simpl.
  assert (Hperm : reorderPairs ∅ (sortPairs pairs) ≡ₚ pairs)
    by (by rewrite reorderPairs_perm, sortPairs_perm).
  assert (Hstart : usdTableOf bySymbol [] ∅).
  { intros base. rewrite lookup_empty, bool_decide_eq_false_2; [done|].
    intros [Hin _]. by apply not_elem_of_nil in Hin. }
  destruct (convertPairs_usd bySymbol thresholds minOverrides
              (reorderPairs ∅ (sortPairs pairs)) [] ∅ [])
    as (usdRates & -> & Htable); [by rewrite Hperm | done |].
  simpl. exists usdRates. split; [done|].
  eapply usdTableOf_ext; [|exact Htable].
  intros base. simpl. by rewrite Hperm.
Qed.

Lemma convertTickersToUSD_usd
    (providerPrices : gmap Name (gmap string TickerPrice))
    (pairs : gmap Name (list CurrencyPair)) thresholds minOverrides base :
  (forall pair, pair ∈ collectPairs pairs -> Quote pair = "USD") ->
  providerPrices ≠ ∅ ->
  rateOf (convertTickersToUSD providerPrices pairs thresholds minOverrides) base
  = if bool_decide (base ∈ Base <$> collectPairs pairs
                    /\ quotesOf providerPrices (usdSymbol base) ≠ ∅)
    then finalRate thresholds minOverrides base (quotesOf providerPrices (usdSymbol base))
    else None.
Proof.
  intros Husd Hprices. unfold convertTickersToUSD, rateOf.
  apply map_size_non_empty_iff in Hprices.
  destruct (Nat.eqb_spec (size providerPrices) 0) as [|_]; [done|].
  destruct (convertRounds_usd (groupBySymbol providerPrices) thresholds minOverrides 5
              (collectPairs pairs)) as (usdRates & Hrounds & Htable).
  { by apply Forall_forall. }
  unfold maxConversions. rewrite Hrounds. simpl.
  rewrite finalRates_lookup, Htable. unfold quotesOf.
  by case_bool_decide.
Qed.

Lemma finalRate_unfold thresholds minOverrides denom (tickers : gmap Name TickerPrice) :
  finalRate thresholds minOverrides denom tickers
  = let result := FilterTickerDeviations denom tickers (thresholds !! denom) in
    let rated :=
      match vwapRate result.1 with
      | inr _ => None
      | inl rate => if Dec.IsZero rate then None else Some rate
      end in
    match result.2 with
    | Some _ =>
        match minOverrides !! denom with
        | None => None
        | Some minimum => if Z.of_nat (size result.1) <? minimum then None else rated
        end
    | None => rated
    end.
Proof.
  unfold finalRate. by destruct (FilterTickerDeviations denom tickers (thresholds !! denom)).
Qed.

Lemma finalRate_add thresholds minOverrides denom
    (tickers : gmap Name TickerPrice) providerName ticker rate :
  tickers !! providerName = None ->
  finalRate thresholds minOverrides denom tickers = Some rate ->
  finalRate thresholds minOverrides denom (<[providerName := ticker]> tickers) = None
  <-> ~ usableRate (FilterTickerDeviations denom (<[providerName := ticker]> tickers)
                                           (thresholds !! denom)).1.
Proof.
  intros Hfresh Hbefore. rewrite !finalRate_unfold in *. simpl in *.
  set (after := FilterTickerDeviations denom (<[providerName := ticker]> tickers)
                                       (thresholds !! denom)) in *.
  destruct (after.2) as [err|] eqn:Herr; [|apply rated_None].
  assert (Hfailed : after.2 <> None) by (by rewrite Herr).
  pose proof (proj1 (FilterTickerDeviations_error _ _ _) Hfailed) as Hsize.
  pose proof (FilterTickerDeviations_error_id _ _ _ Hfailed) as Hid.
  fold after in Hid. rewrite Hid.
  rewrite map_size_insert_None in Hsize |- * by done.
  assert (Hfailed' : (FilterTickerDeviations denom tickers (thresholds !! denom)).2 <> None)
    by (apply FilterTickerDeviations_error; lia).
  pose proof (FilterTickerDeviations_error_id _ _ _ Hfailed') as Hid'.
  rewrite Hid' in Hbefore.
  destruct ((FilterTickerDeviations denom tickers (thresholds !! denom)).2); [|done].
  destruct (minOverrides !! denom) as [minimum|]; [|done].
  destruct (Z.ltb_spec (Z.of_nat (size tickers)) minimum); [done|].
  rewrite (proj2 (Z.ltb_ge _ _)) by lia.
  rewrite <- Hid. apply rated_None.
Qed.

(** C9 (amended). For a configuration in which every pair is quoted in USD:
    a base that is in the output of the resolver is still there, with the
    same price, after one ticker is added for another symbol; after a ticker
    is added for its own symbol, it is left out exactly when the filter
    leaves the enlarged set of its tickers without a usable VWAP (no
    ticker, or a VWAP of zero). *)
Theorem convertTickersToUSD_add_ticker
    (providerPrices : gmap Name (gmap string TickerPrice))
    (pairs : gmap Name (list CurrencyPair)) thresholds minOverrides
    providerName symbol ticker base rate :
  (forall pair, pair ∈ collectPairs pairs -> Quote pair = "USD") ->
  tickerOf providerPrices providerName symbol = None ->
  rateOf (convertTickersToUSD providerPrices pairs thresholds minOverrides) base
  = Some rate ->
  let after :=
    convertTickersToUSD (addTicker providerPrices providerName symbol ticker)
                        pairs thresholds minOverrides in
  let enlarged := <[providerName := ticker]> (quotesOf providerPrices symbol) in
  if decide (symbol = usdSymbol base)
  then rateOf after base = None
       <-> ~ usableRate (FilterTickerDeviations base enlarged (thresholds !! base)).1
  else rateOf after base = Some rate.
Proof.
  intros Husd Hfresh Hbefore after enlarged. subst after enlarged.
  assert (Hprices : providerPrices ≠ ∅).
  { intros ->. by vm_compute in Hbefore. }
  rewrite convertTickersToUSD_usd in Hbefore by done.
  rewrite convertTickersToUSD_usd by (done || apply insert_non_empty).
  rewrite quotesOf_addTicker.
  case_bool_decide as Hin; [|done]. destruct Hin as [Hin Hquotes].
  destruct (decide (symbol = usdSymbol base)) as [->|Hother].
  - rewrite decide_True by done.
    rewrite bool_decide_eq_true_2 by (split; [done | apply insert_non_empty]).
    apply finalRate_add with rate; [|done].
    by rewrite groupBySymbol_lookup.
  - rewrite decide_False by done.
    by rewrite bool_decide_eq_true_2.
Qed.

Lemma convertTickersToUSD_add_ticker_witness :
  rateOf (convertTickersToUSD (addTicker agreedPrices "d" "XUSD" (quoteAt 20))
                              fourProviders ∅ ∅) "X"
  <> None.
Proof.
  assert (Husd : forall pair, pair ∈ collectPairs fourProviders -> Quote pair = "USD").
  { intros pair Hin. vm_compute in Hin. apply list_elem_of_singleton in Hin. by subst. }
  assert (Hfresh : tickerOf agreedPrices "d" "XUSD" = None) by (vm_compute; reflexivity).
  assert (Hbefore : rateOf (convertTickersToUSD agreedPrices fourProviders ∅ ∅) "X"
                    = Some (Dec.NewDec 10)) by (vm_compute; reflexivity).
  pose proof (convertTickersToUSD_add_ticker agreedPrices fourProviders ∅ ∅
                "d" "XUSD" (quoteAt 20) "X" (Dec.NewDec 10) Husd Hfresh Hbefore) as Hadd.
  cbv zeta in Hadd.
  destruct (decide ("XUSD" = usdSymbol "X")) as [_|Hne]; [|by destruct Hne].
  intros Hnone. apply Hadd in Hnone. apply Hnone.
  exists (Dec.NewDec 10). split; [vm_compute; reflexivity | discriminate].
Defined.

(** * Further properties of the resolver *)

(** X1. [addRates] never replaces a rate: a provider that has a rate keeps
    it, and a provider without one gets the new ticker, if there is one. *)
Theorem addRates_first_wins symbol (rates tickers : gmap Name TickerPrice) providerName :
  addRates symbol rates tickers !! providerName
  = match rates !! providerName with
    | Some rate => Some rate
    | None => tickers !! providerName
    end.
Proof.
  rewrite addRates_union, lookup_union.
  destruct (rates !! providerName), (tickers !! providerName); done.
Qed.

Lemma groupBySymbol_non_empty (providerPrices : gmap Name (gmap string TickerPrice)) symbol :
  groupBySymbol providerPrices !! symbol <> Some ∅.
Proof.
  unfold groupBySymbol. revert symbol.
  apply (map_fold_weak_ind
           (fun acc (m : gmap Name (gmap string TickerPrice)) =>
              forall symbol, acc !! symbol <> Some ∅)).
  - intros symbol. by rewrite lookup_empty.
  - intros i x m acc _ IH.
    apply (map_fold_weak_ind
             (fun acc' (m' : gmap string TickerPrice) =>
                forall symbol, acc' !! symbol <> Some ∅)); [done|].
    intros j y m' acc' _ IH' symbol.
    destruct (decide (j = symbol)) as [->|Hne].
    + rewrite lookup_insert_eq. intros [= Hempty]. by apply insert_non_empty in Hempty.
    + by rewrite lookup_insert_ne.
Qed.

(** X2. Grouping by symbol transposes the aggregated prices: a provider has
    a ticker in the group of a symbol exactly when it has that ticker for the
    symbol, and no group is empty. *)
Theorem groupBySymbol_transpose
    (providerPrices : gmap Name (gmap string TickerPrice)) symbol providerName :
  (groupBySymbol providerPrices !! symbol) ≫= (fun tickers => tickers !! providerName)
  = (providerPrices !! providerName) ≫= (fun tickers => tickers !! symbol)
  /\ groupBySymbol providerPrices !! symbol <> Some ∅.
Proof.
  split; [|apply groupBySymbol_non_empty].
  pose proof (groupBySymbol_lookup providerPrices symbol providerName) as Hlookup.
  unfold quotesOf, tickerOf in Hlookup. rewrite <- Hlookup.
  by destruct (groupBySymbol providerPrices !! symbol).
Qed.

(** What the loop over the provider pairs keeps true of the symbols seen and
    the pairs collected. *)
Lemma foldl_addPair (currencyPairs : list CurrencyPair) (acc : gset string * list CurrencyPair) :
  (forall symbol, symbol ∈ acc.1 <-> symbol ∈ symbolOf <$> acc.2) ->
  NoDup (symbolOf <$> acc.2) ->
  let result := foldl addPair acc currencyPairs in
  (forall symbol, symbol ∈ result.1 <-> symbol ∈ symbolOf <$> result.2)
  /\ NoDup (symbolOf <$> result.2)
  /\ (forall pair, pair ∈ result.2 -> pair ∈ acc.2 \/ pair ∈ currencyPairs)
  /\ (forall pair, pair ∈ acc.2 -> pair ∈ result.2)
  /\ (forall pair, pair ∈ currencyPairs -> symbolOf pair ∈ result.1).
Proof.
  revert acc. induction currencyPairs as [|pair pairs IH]; intros acc Hseen Hnodup; simpl.
  - split; [done|]. split; [done|]. split; [by left|]. split; [done|].
    intros pair Hin. by apply not_elem_of_nil in Hin.
  - assert (Hstep : (forall symbol,
                        symbol ∈ (addPair acc pair).1
                        <-> symbol ∈ symbolOf <$> (addPair acc pair).2)
                    /\ NoDup (symbolOf <$> (addPair acc pair).2)
                    /\ (forall other, other ∈ (addPair acc pair).2
                                      -> other ∈ acc.2 \/ other = pair)
                    /\ (forall other, other ∈ acc.2 -> other ∈ (addPair acc pair).2)
                    /\ symbolOf pair ∈ (addPair acc pair).1).
    { unfold addPair. destruct (decide (symbolOf pair ∈ acc.1)) as [Hin|Hnew]; simpl.
      - split; [done|]. split; [done|]. split; [by left|]. done.
      - split; [|split; [|split; [|split]]].
        + intros symbol.
          rewrite fmap_app, elem_of_app, elem_of_union, elem_of_singleton. simpl.
          rewrite list_elem_of_singleton, Hseen. tauto.
        + rewrite fmap_app. simpl. apply NoDup_app. split; [done|].
          split; [|apply NoDup_singleton].
          intros symbol Hin Heq. apply list_elem_of_singleton in Heq as ->.
          by apply Hnew, Hseen.
        + intros other Hin. apply elem_of_app in Hin as [Hin|Hin]; [by left|].
          right. by apply list_elem_of_singleton in Hin.
        + intros other Hin. apply elem_of_app. by left.
        + apply elem_of_union. left. by apply elem_of_singleton. }
    destruct Hstep as (Hseen' & Hnodup' & Hfrom & Hkeep & Hpair).
    destruct (IH (addPair acc pair) Hseen' Hnodup')
      as (Hseen'' & Hnodup'' & Hfrom' & Hkeep' & Hall).
    split; [done|]. split; [done|]. split; [|split].
    + intros other Hin. apply Hfrom' in Hin as [Hin|Hin].
      * apply Hfrom in Hin as [Hin| ->]; [by left|]. right. by left.
      * right. by right.
    + intros other Hin. by apply Hkeep', Hkeep.
    + intros other Hin. apply elem_of_cons in Hin as [->|Hin]; [|by apply Hall].
      apply Hseen''. apply Hseen' in Hpair.
      apply list_elem_of_fmap in Hpair as (found & Heq & Hin).
      apply list_elem_of_fmap. exists found. split; [done|]. by apply Hkeep'.
Qed.

Lemma collectPairs_invariant (providerPairs : gmap Name (list CurrencyPair)) :
  NoDup (symbolOf <$> collectPairs providerPairs)
  /\ (forall pair,
        pair ∈ collectPairs providerPairs ->
        exists providerName pairs, providerPairs !! providerName = Some pairs /\ pair ∈ pairs)
  /\ (forall providerName pairs pair,
        providerPairs !! providerName = Some pairs -> pair ∈ pairs ->
        symbolOf pair ∈ symbolOf <$> collectPairs providerPairs).
Proof.
  unfold collectPairs.
  set (invariant := fun (acc : gset string * list CurrencyPair)
                        (m : gmap Name (list CurrencyPair)) =>
         (forall symbol : string, symbol ∈ acc.1 <-> symbol ∈ symbolOf <$> acc.2)
         /\ NoDup (symbolOf <$> acc.2)
         /\ (forall pair : CurrencyPair,
               pair ∈ acc.2 ->
               exists (providerName : Name) (pairs : list CurrencyPair),
                 m !! providerName = Some pairs /\ pair ∈ pairs)
         /\ (forall (providerName : Name) (pairs : list CurrencyPair) (pair : CurrencyPair),
               m !! providerName = Some pairs -> pair ∈ pairs ->
               symbolOf pair ∈ symbolOf <$> acc.2)).
  enough (Hind : invariant
                   (map_fold (fun (_ : Name) currencyPairs acc =>
                                foldl addPair acc currencyPairs) (∅, []) providerPairs)
                   providerPairs)
    by (by destruct Hind as (_ & Hnodup & Hfrom & Hall)).
  apply (map_fold_weak_ind invariant); unfold invariant.
  - simpl. split; [|split; [|split]].
    + intros symbol. split; intros Hin.
      * by apply not_elem_of_empty in Hin.
      * by apply not_elem_of_nil in Hin.
    + apply NoDup_nil_2.
    + intros pair Hin. by apply not_elem_of_nil in Hin.
    + intros providerName pairs pair Hin. by rewrite lookup_empty in Hin.
  - intros i x m acc Hi (Hseen & Hnodup & Hfrom & Hall).
    destruct (foldl_addPair x acc Hseen Hnodup) as (Hseen' & Hnodup' & Hfrom' & Hkeep & Hnew).
    split; [done|]. split; [done|]. split.
    + intros pair Hin. apply Hfrom' in Hin as [Hin|Hin].
      * destruct (Hfrom pair Hin) as (providerName & pairs & Hlookup & Hpair).
        exists providerName, pairs. split; [|done].
        rewrite lookup_insert_ne; [done|]. intros ->. congruence.
      * exists i, x. by rewrite lookup_insert_eq.
    + intros providerName pairs pair Hlookup Hin.
      destruct (decide (i = providerName)) as [->|Hne].
      * rewrite lookup_insert_eq in Hlookup. injection Hlookup as <-.
        by apply Hseen', Hnew.
      * rewrite lookup_insert_ne in Hlookup by done.
        specialize (Hall _ _ _ Hlookup Hin).
        apply list_elem_of_fmap in Hall as (found & Heq & Hfound).
        apply list_elem_of_fmap. exists found. split; [done|]. by apply Hkeep.
Qed.

(** X3. The pairs the resolver works on hold every configured symbol once:
    no two of them have the same symbol, each is a pair of some provider,
    and the symbol of every configured pair is among theirs. *)
Theorem collectPairs_one_per_symbol (providerPairs : gmap Name (list CurrencyPair)) :
  NoDup (symbolOf <$> collectPairs providerPairs)
  /\ (forall pair,
        pair ∈ collectPairs providerPairs
        -> exists providerName pairs,
            providerPairs !! providerName = Some pairs /\ pair ∈ pairs)
  /\ (forall providerName pairs pair,
        providerPairs !! providerName = Some pairs -> pair ∈ pairs
        -> symbolOf pair ∈ symbolOf <$> collectPairs providerPairs).
Proof. apply collectPairs_invariant. Qed.

Lemma convertPairs_keys bySymbol thresholds minOverrides
    (pairs : list CurrencyPair) usdRates unresolved usdRates' unresolved' :
  convertPairs bySymbol thresholds minOverrides pairs usdRates unresolved
  = inl (usdRates', unresolved') ->
  (forall base, is_Some (usdRates' !! base)
                -> is_Some (usdRates !! base) \/ base ∈ Base <$> pairs)
  /\ (forall pair, pair ∈ unresolved' -> pair ∈ unresolved \/ pair ∈ pairs).
Proof.
  revert usdRates unresolved.
  induction pairs as [|pair pairs IH]; intros usdRates unresolved; simpl.
  - intros [= <- <-]. split; intros; by left.
  - destruct (convertPair bySymbol thresholds minOverrides usdRates pair)
      as [|err|newRates]; [| done |].
    + intros Hrest. apply IH in Hrest as [Hkeys Hparked]. split.
      * intros base Hbase. apply Hkeys in Hbase as [?|?]; [by left|].
        right. rewrite ?fmap_cons. by right.
      * intros other Hin. apply Hparked in Hin as [Hin|Hin].
        -- apply elem_of_app in Hin as [Hin|Hin]; [by left|].
           right. apply list_elem_of_singleton in Hin as ->. by left.
        -- right. by right.
    + destruct (0 <? size newRates)%nat; intros Hrest;
        apply IH in Hrest as [Hkeys Hparked]; split.
      * intros base Hbase. apply Hkeys in Hbase as [Hbase|?].
        -- destruct (decide (Base pair = base)) as [<-|Hne].
           ++ right. rewrite ?fmap_cons. by left.
           ++ left. by rewrite lookup_insert_ne in Hbase.
        -- right. rewrite ?fmap_cons. by right.
      * intros other Hin. apply Hparked in Hin as [?|?]; [by left|]. right. by right.
      * intros base Hbase. apply Hkeys in Hbase as [?|?]; [by left|].
        right. rewrite ?fmap_cons. by right.
      * intros other Hin. apply Hparked in Hin as [?|?]; [by left|]. right. by right.
Qed.

Lemma convertRounds_keys bySymbol thresholds minOverrides rounds
    (pairs : list CurrencyPair) usdRates usdRates' :
  convertRounds bySymbol thresholds minOverrides rounds pairs usdRates = inl usdRates' ->
  forall base, is_Some (usdRates' !! base)
               -> is_Some (usdRates !! base) \/ base ∈ Base <$> pairs.
Proof.
  revert pairs usdRates.
  induction rounds as [|rounds IH]; intros pairs usdRates; simpl.
  - intros [= <-] base Hbase. by left.
  - assert (Hperm : reorderPairs usdRates (sortPairs pairs) ≡ₚ pairs)
      by (by rewrite reorderPairs_perm, sortPairs_perm).
    destruct (convertPairs bySymbol thresholds minOverrides
                (reorderPairs usdRates (sortPairs pairs)) usdRates [])
      as [[usdRates1 unresolved]|err] eqn:Hpass; [|done].
    apply convertPairs_keys in Hpass as [Hkeys Hparked].
    assert (Hfirst : forall base, is_Some (usdRates1 !! base)
                                  -> is_Some (usdRates !! base) \/ base ∈ Base <$> pairs).
    { intros base Hbase. apply Hkeys in Hbase as [?|Hin]; [by left|].
      right. by rewrite <- Hperm. }
    destruct (_ || _).
    + intros [= <-]. exact Hfirst.
    + intros Hrest base Hbase. eapply IH in Hbase as [Hbase|Hin]; [| |exact Hrest].
      * by apply Hfirst.
      * right. apply list_elem_of_fmap in Hin as (pair & -> & Hin).
        apply list_elem_of_fmap. exists pair. split; [done|].
        apply Hparked in Hin as [Hin|Hin]; [by apply not_elem_of_nil in Hin|].
        by rewrite <- Hperm.
Qed.

(** X4. Every price in the output of the resolver is not zero, and its base
    is the base of a pair that some provider is configured with. *)
Theorem convertTickersToUSD_output
    (providerPrices : gmap Name (gmap string TickerPrice))
    (pairs : gmap Name (list CurrencyPair)) thresholds minOverrides base rate :
  rateOf (convertTickersToUSD providerPrices pairs thresholds minOverrides) base
  = Some rate ->
  rate <> 0
  /\ exists providerName configured pair,
      pairs !! providerName = Some configured
      /\ pair ∈ configured
      /\ Base pair = base.
Proof.
  unfold convertTickersToUSD, rateOf.
  destruct (size providerPrices =? 0)%nat; [done|].
  destruct (convertRounds _ _ _ _ _ _) as [usdRates|err] eqn:Hrounds; [|done].
  simpl. rewrite finalRates_lookup.
  destruct (usdRates !! base) as [tickers|] eqn:Hbase; [|done]. simpl.
  rewrite finalRate_unfold. simpl. intros Hrate. split.
  - assert (Hrated : forall rated : option Dec,
               rated = match vwapRate (FilterTickerDeviations base tickers
                                         (thresholds !! base)).1 with
                       | inr _ => None
                       | inl found => if Dec.IsZero found then None else Some found
                       end ->
               rated = Some rate -> rate <> 0).
    { intros rated -> Hsome.
      destruct (vwapRate _) as [found|]; [|done].
      unfold Dec.IsZero in Hsome.
      destruct (Z.eqb_spec found 0); [done|]. by injection Hsome as <-. }
    destruct ((FilterTickerDeviations base tickers (thresholds !! base)).2).
    + destruct (minOverrides !! base) as [minimum|]; [|done].
      destruct (_ <? minimum); [done|]. by eapply Hrated.
    + by eapply Hrated.
  - eapply convertRounds_keys in Hrounds as [Hempty|Hin]; [| |by rewrite Hbase].
    + rewrite lookup_empty in Hempty. by destruct Hempty.
    + apply list_elem_of_fmap in Hin as (pair & -> & Hin).
      destruct (collectPairs_invariant pairs) as (_ & Hfrom & _).
      destruct (Hfrom pair Hin) as (providerName & configured & Hlookup & Hpair).
      by exists providerName, configured, pair.
Qed.

Lemma convertTickersToUSD_output_witness :
  Dec.NewDec 10 <> 0
  /\ exists providerName configured pair,
      fourProviders !! providerName = Some configured
      /\ pair ∈ configured
      /\ Base pair = "X".
Proof.
  apply (convertTickersToUSD_output agreedPrices fourProviders ∅ ∅ "X" (Dec.NewDec 10)).
  vm_compute. reflexivity.
Defined.

Lemma convertPair_ext bySymbol bySymbol' thresholds minOverrides usdRates pair :
  default ∅ (bySymbol !! symbolOf pair) = default ∅ (bySymbol' !! symbolOf pair) ->
  convertPair bySymbol thresholds minOverrides usdRates pair
  = convertPair bySymbol' thresholds minOverrides usdRates pair.
Proof. intros Hsame. unfold convertPair. by rewrite Hsame. Qed.

Lemma convertPairs_ext bySymbol bySymbol' thresholds minOverrides
    (pairs : list CurrencyPair) usdRates unresolved :
  (forall pair, pair ∈ pairs ->
                default ∅ (bySymbol !! symbolOf pair) = default ∅ (bySymbol' !! symbolOf pair)) ->
  convertPairs bySymbol thresholds minOverrides pairs usdRates unresolved
  = convertPairs bySymbol' thresholds minOverrides pairs usdRates unresolved.
Proof.
  revert usdRates unresolved.
  induction pairs as [|pair pairs IH]; intros usdRates unresolved Hsame; simpl; [done|].
  rewrite (convertPair_ext bySymbol bySymbol') by (apply Hsame; by left).
  assert (Hrest : forall other, other ∈ pairs ->
                    default ∅ (bySymbol !! symbolOf other)
                    = default ∅ (bySymbol' !! symbolOf other))
    by (intros other Hin; apply Hsame; by right).
  destruct (convertPair bySymbol' thresholds minOverrides usdRates pair)
    as [|err|newRates]; [by apply IH | done |].
  destruct (0 <? size newRates)%nat; by apply IH.
Qed.

Lemma convertRounds_ext bySymbol bySymbol' thresholds minOverrides rounds
    (pairs : list CurrencyPair) usdRates :
  (forall pair, pair ∈ pairs ->
                default ∅ (bySymbol !! symbolOf pair) = default ∅ (bySymbol' !! symbolOf pair)) ->
  convertRounds bySymbol thresholds minOverrides rounds pairs usdRates
  = convertRounds bySymbol' thresholds minOverrides rounds pairs usdRates.
Proof.
  revert pairs usdRates.
  induction rounds as [|rounds IH]; intros pairs usdRates Hsame; simpl; [done|].
  assert (Hperm : reorderPairs usdRates (sortPairs pairs) ≡ₚ pairs)
    by (by rewrite reorderPairs_perm, sortPairs_perm).
  rewrite (convertPairs_ext bySymbol bySymbol')
    by (intros pair Hin; apply Hsame; by rewrite <- Hperm).
  destruct (convertPairs bySymbol' thresholds minOverrides
              (reorderPairs usdRates (sortPairs pairs)) usdRates [])
    as [[usdRates1 unresolved]|err] eqn:Hpass; [|done].
  destruct (_ || _); [done|].
  apply IH. intros pair Hin. apply Hsame.
  apply convertPairs_keys in Hpass as [_ Hparked].
  apply Hparked in Hin as [Hin|Hin]; [by apply not_elem_of_nil in Hin|].
  by rewrite <- Hperm.
Qed.

(** X5. The resolver reads the aggregated prices only at the symbols of the
    configured pairs: two non-empty price maps that give every provider the
    same ticker for each configured symbol give the same result. *)
Theorem convertTickersToUSD_configured_symbols
    (providerPrices providerPrices' : gmap Name (gmap string TickerPrice))
    (pairs : gmap Name (list CurrencyPair)) thresholds minOverrides :
  (forall providerName configured pair,
      pairs !! providerName = Some configured -> pair ∈ configured ->
      forall name, tickerOf providerPrices name (symbolOf pair)
                   = tickerOf providerPrices' name (symbolOf pair)) ->
  providerPrices ≠ ∅ ->
  providerPrices' ≠ ∅ ->
  convertTickersToUSD providerPrices pairs thresholds minOverrides
  = convertTickersToUSD providerPrices' pairs thresholds minOverrides.
Proof.
  intros Hsame Hprices Hprices'. unfold convertTickersToUSD.
  apply map_size_non_empty_iff in Hprices, Hprices'.
  destruct (Nat.eqb_spec (size providerPrices) 0) as [|_]; [done|].
  destruct (Nat.eqb_spec (size providerPrices') 0) as [|_]; [done|].
  rewrite (convertRounds_ext (groupBySymbol providerPrices) (groupBySymbol providerPrices'));
    [done|].
  intros pair Hin.
  destruct (collectPairs_invariant pairs) as (_ & Hfrom & _).
  destruct (Hfrom pair Hin) as (providerName & configured & Hlookup & Hpair).
  apply map_eq. intros name.
  pose proof (groupBySymbol_lookup providerPrices (symbolOf pair) name) as Hleft.
  pose proof (groupBySymbol_lookup providerPrices' (symbolOf pair) name) as Hright.
  unfold quotesOf in Hleft, Hright. rewrite Hleft, Hright. by eapply Hsame.
Qed.

Lemma convertTickersToUSD_configured_symbols_witness :
  convertTickersToUSD agreedPrices fourProviders halfSigmaForX ∅
  = convertTickersToUSD (addTicker agreedPrices "z" "YUSD" (quoteAt 5))
                        fourProviders halfSigmaForX ∅.
Proof.
  apply convertTickersToUSD_configured_symbols.
  - intros providerName configured pair Hlookup Hpair name.
    assert (Hsymbol : symbolOf pair = "XUSD").
    { assert (Hall : configured = [pairXUSD]).
      { apply elem_of_list_to_map_2 in Hlookup.
        repeat (apply elem_of_cons in Hlookup as [[= _ ->]|Hlookup]; [done|]).
        by apply not_elem_of_nil in Hlookup. }
      subst configured. apply list_elem_of_singleton in Hpair. by subst pair. }
    rewrite Hsymbol. unfold tickerOf, addTicker.
    destruct (decide (name = "z")) as [->|Hne].
    + rewrite lookup_insert_eq. vm_compute. reflexivity.
    + by rewrite lookup_insert_ne.
  - vm_compute. discriminate.
  - apply insert_non_empty.
Defined.
